(** * YoutubeMixDownloader: the scrape loop and the download batch

    A shallow embedding of [src/youtube_mix_dl/downloader.py].

    The class talks to three collaborators: a Selenium driver, the
    filesystem and [yt_dlp].  Each of them is a deterministic oracle that
    either returns a value or raises; every call the program makes is
    appended to a trace, so that what happened on a run can be read off
    afterwards.  The [while] loop of [get_mix_videos] has no bound of its
    own and is run with fuel. *)

From stdpp Require Import list strings pretty.

Local Open Scope string_scope.
Local Open Scope list_scope.
Local Open Scope Z_scope.

(** ** Exceptions, collaborator answers, outcomes *)

(** A Python exception of class [Exception]; [str e] is what [str(e)]
    prints.  Interrupts delivered from outside the program
    (KeyboardInterrupt, SystemExit) are not answers of a collaborator and
    are not part of the model. *)
Inductive exn : Type :=
| Exception (str : string).

Definition str (e : exn) : string :=
  match e with Exception s => s end.

(** What a call into a collaborator does. *)
Inductive answer (A : Type) : Type :=
| Returns (a : A)
| Raises (e : exn).
Arguments Returns {A} a.
Arguments Raises {A} e.

(** What a piece of the program does.  [OutOfFuel] stands for a run that
    is still inside the scroll loop when the fuel is spent. *)
Inductive outcome (A : Type) : Type :=
| Return (a : A)
| Raise (e : exn)
| OutOfFuel.
Arguments Return {A} a.
Arguments Raise {A} e.
Arguments OutOfFuel {A}.

(** ** Progress messages *)

Inductive message : Type :=
| MsgLoading
| MsgFound (count : nat)
| MsgDownloading (percent total : string)
| MsgSuccess (title : string)
| MsgError (text : string)
| MsgStarting
| MsgProcessing (index total : nat)
| MsgComplete (successful_downloads : Z).

(** The text handed to [progress_callback]. *)
Definition render (m : message) : string :=
  match m with
  | MsgLoading => "Loading playlist page..."
  | MsgFound n => "Found " +:+ pretty n +:+ " videos..."
  | MsgDownloading p t => "Downloading: " +:+ p +:+ " of " +:+ t
  | MsgSuccess t => "Successfully downloaded: " +:+ t
  | MsgError t => "Error downloading video: " +:+ t
  | MsgStarting => "Starting YouTube Mix downloader..."
  | MsgProcessing i n =>
      "[" +:+ pretty i +:+ "/" +:+ pretty n +:+ "] Processing video..."
  | MsgComplete n =>
      "Download complete! Successfully downloaded " +:+ pretty n +:+ " videos."
  end.

(** ** Traces *)

Inductive event : Type :=
| EvProgress (m : message)          (* progress_callback(render m) *)
| EvSetupDriver                     (* self._setup_driver() *)
| EvGet (url : string)              (* driver.get(url) *)
| EvSleep (seconds : nat)           (* time.sleep(seconds) *)
| EvScroll                          (* driver.execute_script(scrollTo ...) *)
| EvFindElements                    (* driver.find_elements(...) *)
| EvGetAttribute                    (* item.get_attribute("href") *)
| EvQuit                            (* driver.quit() *)
| EvPathExists                      (* os.path.exists(output_path) *)
| EvMakedirs                        (* os.makedirs(output_path) *)
| EvExtractInfo (url : string).     (* ydl.extract_info(url, download=True) *)

Global Instance message_eq_dec : EqDecision message.
Proof. solve_decision. Defined.
Global Instance event_eq_dec : EqDecision event.
Proof. solve_decision. Defined.

(** The mutable world: the calls made so far and whether the output
    directory is there. *)
Record state : Type := State {
  trace : list event;
  dir_exists : bool
}.

Definition emit (ev : event) (st : state) : state :=
  State (trace st ++ [ev]) (dir_exists st).

(** ** The monad of the program *)

Definition M (A : Type) : Type := state → outcome A * state.

Definition ret {A} (a : A) : M A := λ st, (Return a, st).

Definition bind {A B} (m : M A) (k : A → M B) : M B := λ st,
  match m st with
  | (Return a, st') => k a st'
  | (Raise e, st') => (Raise e, st')
  | (OutOfFuel, st') => (OutOfFuel, st')
  end.

Notation "x <- m ;; k" := (bind m (λ x, k))
  (at level 100, m at next level, k at level 200, right associativity).

Definition log (ev : event) : M unit := λ st, (Return tt, emit ev st).

Definition reply {A} (a : answer A) : M A := λ st,
  match a with
  | Returns x => (Return x, st)
  | Raises e => (Raise e, st)
  end.

(** A call into a collaborator: logged, then answered. *)
Definition call {A} (ev : event) (a : answer A) : M A :=
  _ <- log ev ;; reply a.

(** [time.sleep(seconds)] only shows in the trace. *)
Definition sleep (seconds : nat) : M unit := log (EvSleep seconds).

(** [try: body except Exception as e: handler e] *)
Definition try_except {A} (body : M A) (handler : exn → M A) : M A := λ st,
  match body st with
  | (Raise e, st') => handler e st'
  | r => r
  end.

(** [try: body finally: final].  The [finally] clause runs when the body
    returns and when it raises; an exception of the clause itself replaces
    the pending one.  A body that is still running has not reached it. *)
Definition try_finally {A} (body : M A) (final : M unit) : M A := λ st,
  match body st with
  | (Return a, st') =>
      match final st' with
      | (Return _, st'') => (Return a, st'')
      | (Raise e, st'') => (Raise e, st'')
      | (OutOfFuel, st'') => (OutOfFuel, st'')
      end
  | (Raise e, st') =>
      match final st' with
      | (Return _, st'') => (Raise e, st'')
      | (Raise e', st'') => (Raise e', st'')
      | (OutOfFuel, st'') => (OutOfFuel, st'')
      end
  | (OutOfFuel, st') => (OutOfFuel, st')
  end.

(** ** Pure helpers *)

(** [needle in haystack] on [str]. *)
Fixpoint str_contains (needle haystack : string) : bool :=
  String.prefix needle haystack ||
  match haystack with
  | EmptyString => false
  | String _ rest => str_contains needle rest
  end.

(** [href and "watch?v=" in href] for an [href] that is a string: the
    empty string is falsy. *)
Definition is_watch_href (href : string) : bool :=
  negb (String.eqb href "") && str_contains "watch?v=" href.

(** A Python [dict] whose values are all [None], as [dict.fromkeys]
    builds it: the keys in insertion order.  Setting a key that is already
    there keeps its place. *)
Definition dict : Type := list (string * unit).

Definition dict_keys (d : dict) : list string := d.*1.

Definition dict_setitem (d : dict) (k : string) : dict :=
  if bool_decide (k ∈ dict_keys d) then d else d ++ [(k, tt)].

Definition dict_fromkeys (keys : list string) : dict :=
  fold_left dict_setitem keys [].

(** [l[:n]] for a Python [int] [n]: a negative [n] counts from the end. *)
Definition slice_to {A} (l : list A) (n : Z) : list A :=
  if 0 <=? n then take (Z.to_nat n) l
  else take (Z.to_nat (Z.of_nat (length l) + n)) l.

(** ** The object and its collaborators *)

Record YoutubeMixDownloader : Type := {
  output_path : string;
  progress_callback : option (string → answer unit)
}.

(** An anchor element is what reading its [href] attribute gives. *)
Definition element : Type := answer (option string).

(** The dictionary [yt_dlp] hands to a progress hook. *)
Record progress_dict : Type := {
  status : string;
  percent_str : option string;
  total_bytes_str : option string
}.

(** A non-empty info dictionary; [title] is [info.get('title')]. *)
Record info_dict : Type := {
  title : option string
}.

(** The browser answers by scroll round (counted from 0); [extract_info]
    gives the progress reports it makes on the way and then its result,
    [None] for a falsy one.  What the service makes of an exception
    raised by a progress hook is its own business, [hook_error]: with
    ['ignoreerrors': True] (line 105) [yt_dlp] reports it and returns
    [None]; another service may let it through. *)
Record collaborators : Type := {
  setup_driver : answer unit;
  driver_get : string → answer unit;
  execute_script : nat → answer unit;
  find_elements : nat → answer (list element);
  driver_quit : answer unit;
  makedirs : string → answer unit;
  extract_info : string → list progress_dict * answer (option info_dict);
  hook_error : string → exn → answer (option info_dict)
}.

(** ** Reference definitions for the statements *)

(** Keep the first occurrence of every element, in order. *)
Fixpoint first_seen (l : list string) : list string :=
  match l with
  | [] => []
  | x :: l' => x :: filter (λ y, y ≠ x) (first_seen l')
  end.

(** [video_urls.append(c)] guarded by [c not in video_urls]. *)
Definition append_new (video_urls : list string) (c : string) : list string :=
  if bool_decide (c ∈ video_urls) then video_urls else video_urls ++ [c].

(** What reading an anchor gave; an anchor that could not be read gave
    nothing. *)
Definition href_of (item : element) : option string :=
  match item with
  | Returns h => h
  | Raises _ => None
  end.

Definition readable (item : element) : Prop := ∃ h, item = Returns h.

(** Observations on a state. *)
Definition count_events (p : event → bool) (st : state) : nat :=
  length (filter (λ ev, p ev = true) (trace st)).

Definition is_quit (ev : event) : bool :=
  match ev with EvQuit => true | _ => false end.

Definition is_scroll (ev : event) : bool :=
  match ev with EvScroll => true | _ => false end.

Definition is_start_marker (ev : event) : bool :=
  match ev with EvProgress (MsgProcessing _ _) => true | _ => false end.

(** A completion or failure message of [download_video]. *)
Definition is_verdict (ev : event) : bool :=
  match ev with
  | EvProgress (MsgSuccess _) | EvProgress (MsgError _) => true
  | _ => false
  end.

(** The URLs handed to the download service, in order. *)
Definition extract_calls (st : state) : list string :=
  omap (λ ev, match ev with EvExtractInfo u => Some u | _ => None end)
       (trace st).

(** The messages the progress callback received, in order. *)
Definition messages (st : state) : list message :=
  omap (λ ev, match ev with EvProgress m => Some m | _ => None end)
       (trace st).

Definition count_true (bs : list bool) : Z :=
  Z.of_nat (length (filter (λ b, b = true) bs)).

(** ** Sample collaborators *)

(** A stand-in for [clean_youtube_url]: drop everything from the first
    ampersand on. *)
Fixpoint strip_params (s : string) : string :=
  match s with
  | EmptyString => EmptyString
  | String c rest =>
      if Ascii.eqb c (Ascii.ascii_of_nat 38) then EmptyString
      else String c (strip_params rest)
  end.

Definition silent_downloader : YoutubeMixDownloader :=
  {| output_path := "downloads"; progress_callback := None |}.

Definition chatty_downloader : YoutubeMixDownloader :=
  {| output_path := "downloads";
     progress_callback := Some (λ _, Returns tt) |}.

(** A page that shows two rows after the first scroll and one more row
    after every later one, and a service that fails on the second video in
    one way and on the third in the other. *)
Definition sample_page (round : nat) : list element :=
  match round with
  | O => [Returns (Some "https://yt/watch?v=a&list=RD&index=1");
          Returns None;
          Returns (Some "https://yt/watch?v=b&list=RD&index=2");
          Returns (Some "https://yt/about")]
  | S _ => [Returns (Some "https://yt/watch?v=a&list=RD&index=7");
            Returns (Some "https://yt/watch?v=b&list=RD&index=2");
            Returns (Some "https://yt/watch?v=c&list=RD&index=3")]
  end.

Definition sample_service (url : string)
  : list progress_dict * answer (option info_dict) :=
  if String.eqb url "https://yt/watch?v=a" then
    ([{| status := "downloading"; percent_str := Some "50%";
         total_bytes_str := None |};
      {| status := "finished"; percent_str := None;
         total_bytes_str := None |}],
     Returns (Some {| title := Some "Song A" |}))
  else if String.eqb url "https://yt/watch?v=b" then
    ([], Returns None)
  else ([], Raises (Exception "HTTP Error 403")).

Definition sample_world : collaborators :=
  {| setup_driver := Returns tt;
     driver_get := λ _, Returns tt;
     execute_script := λ _, Returns tt;
     find_elements := λ round, Returns (sample_page round);
     driver_quit := Returns tt;
     makedirs := λ _, Returns tt;
     extract_info := sample_service;
     hook_error := λ _ _, Returns None |}.

(** The same page behind a driver that loses its session on the second
    scroll. *)
Definition crashing_world : collaborators :=
  {| setup_driver := Returns tt;
     driver_get := λ _, Returns tt;
     execute_script := λ round,
       match round with
       | O => Returns tt
       | S _ => Raises (Exception "invalid session id")
       end;
     find_elements := λ round, Returns (sample_page round);
     driver_quit := Returns tt;
     makedirs := λ _, Returns tt;
     extract_info := sample_service;
     hook_error := λ _ _, Returns None |}.

Definition fresh : state := State [] false.

Definition url_a : string := "https://yt/watch?v=a".
Definition url_b : string := "https://yt/watch?v=b".
Definition url_c : string := "https://yt/watch?v=c".

(** The sample run of [get_mix_videos] with a callback: the page is
    loaded, then the first and the second scroll round are done. *)
Definition page_loaded : state :=
  State [EvSetupDriver; EvProgress MsgLoading; EvGet "mix"; EvSleep 3] false.

Definition after_round_1 : state :=
  State (trace page_loaded ++
         [EvScroll; EvSleep 2; EvFindElements; EvGetAttribute; EvGetAttribute;
          EvGetAttribute; EvGetAttribute; EvProgress (MsgFound 2)]) false.

Definition after_round_2 : state :=
  State (trace after_round_1 ++
         [EvScroll; EvSleep 2; EvFindElements; EvGetAttribute; EvGetAttribute;
          EvGetAttribute; EvProgress (MsgFound 3)]) false.

(** A callback that fails on every message, and one that fails on the
    success messages only. *)
Definition grumpy_downloader : YoutubeMixDownloader :=
  {| output_path := "downloads";
     progress_callback := Some (λ _, Raises (Exception "broken pipe")) |}.


(** The sample page behind a driver that cannot be started, behind one
    whose [quit] fails, and with an output directory that cannot be
    made. *)
Definition driverless_world : collaborators :=
  {| setup_driver := Raises (Exception "chromedriver not found");
     driver_get := λ _, Returns tt;
     execute_script := λ _, Returns tt;
     find_elements := λ round, Returns (sample_page round);
     driver_quit := Returns tt;
     makedirs := λ _, Returns tt;
     extract_info := sample_service;
     hook_error := λ _ _, Returns None |}.

Definition stuck_world : collaborators :=
  {| setup_driver := Returns tt;
     driver_get := λ _, Returns tt;
     execute_script := λ _, Returns tt;
     find_elements := λ round, Returns (sample_page round);
     driver_quit := Raises (Exception "chrome not reachable");
     makedirs := λ _, Returns tt;
     extract_info := sample_service;
     hook_error := λ _ _, Returns None |}.

Definition readonly_world : collaborators :=
  {| setup_driver := Returns tt;
     driver_get := λ _, Returns tt;
     execute_script := λ _, Returns tt;
     find_elements := λ round, Returns (sample_page round);
     driver_quit := Returns tt;
     makedirs := λ _, Raises (Exception "Permission denied");
     extract_info := sample_service;
     hook_error := λ _ _, Returns None |}.

(** A callback that fails on the error reports only, and the sample
    videos on a page that lists the one the service rejects first. *)
Definition touchy_downloader : YoutubeMixDownloader :=
  {| output_path := "downloads";
     progress_callback :=
       Some (λ text, if String.prefix "Error" text
                     then Raises (Exception "log window closed")
                     else Returns tt) |}.

Definition rejected_first_world : collaborators :=
  {| setup_driver := Returns tt;
     driver_get := λ _, Returns tt;
     execute_script := λ _, Returns tt;
     find_elements := λ _,
       Returns [Returns (Some "https://yt/watch?v=c&list=RD&index=1");
                Returns (Some "https://yt/watch?v=a&list=RD&index=2")];
     driver_quit := Returns tt;
     makedirs := λ _, Returns tt;
     extract_info := sample_service;
     hook_error := λ _ _, Returns None |}.

Section Downloader.

(** [utils.clean_youtube_url] is imported from a sibling module. *)
Variable clean_youtube_url : string → string.
Variable self : YoutubeMixDownloader.
Variable w : collaborators.

(** [if self.progress_callback: self.progress_callback(render m)] *)
Definition notify (m : message) : M unit :=
  match progress_callback self with
  | None => ret tt
  | Some cb => call (EvProgress m) (cb (render m))
  end.

(** *** get_mix_videos *)

(** One pass of [for item in items] once the attribute is read
    (lines 70-73); a missing attribute reads as [None]. *)
Definition add_href (video_urls : list string) (href : option string)
  : list string :=
  match href with
  | Some h =>
      if is_watch_href h then
        let clean_url := clean_youtube_url h in
        if bool_decide (clean_url ∈ video_urls) then video_urls
        else video_urls ++ [clean_url]
      else video_urls
  | None => video_urls
  end.

Fixpoint for_items (items : list element) (video_urls : list string)
  : M (list string) :=
  match items with
  | [] => ret video_urls
  | item :: rest =>
      href <- call EvGetAttribute item ;;
      for_items rest (add_href video_urls href)
  end.

(** The body of the [while] loop up to the progress message
    (lines 62-77). *)
Definition round_body (round : nat) (video_urls : list string)
  : M (list string) :=
  _ <- call EvScroll (execute_script w round) ;;
  _ <- sleep 2 ;;
  items <- call EvFindElements (find_elements w round) ;;
  video_urls <- for_items items video_urls ;;
  let video_urls := dict_keys (dict_fromkeys video_urls) in
  _ <- notify (MsgFound (length video_urls)) ;;
  ret video_urls.

(** [while len(video_urls) < num_videos: ...; if len(video_urls) >=
    num_videos: break] *)
Fixpoint while_rounds (num_videos : Z) (fuel round : nat)
    (video_urls : list string) : M (list string) :=
  if Z.of_nat (length video_urls) <? num_videos then
    match fuel with
    | O => λ st, (OutOfFuel, st)
    | S fuel' =>
        video_urls <- round_body round video_urls ;;
        if num_videos <=? Z.of_nat (length video_urls) then ret video_urls
        else while_rounds num_videos fuel' (S round) video_urls
    end
  else ret video_urls.

(** The [try] block (lines 56-80); its value is [video_urls] when the
    loop is left. *)
Definition scrape (fuel : nat) (mix_url : string) (num_videos : Z)
  : M (list string) :=
  _ <- notify MsgLoading ;;
  _ <- call (EvGet mix_url) (driver_get w mix_url) ;;
  _ <- sleep 3 ;;
  while_rounds num_videos fuel 0 [].

Definition get_mix_videos (fuel : nat) (mix_url : string) (num_videos : Z)
  : M (list string) :=
  _ <- call EvSetupDriver (setup_driver w) ;;
  video_urls <- try_finally (scrape fuel mix_url num_videos)
                            (call EvQuit (driver_quit w)) ;;
  ret (slice_to video_urls num_videos).

(** *** download_video *)

Definition os_path_exists : M bool := λ st,
  (Return (dir_exists st), emit EvPathExists st).

Definition os_makedirs : M unit := λ st,
  match makedirs w (output_path self) with
  | Returns _ => (Return tt, State (trace st ++ [EvMakedirs]) true)
  | Raises e => (Raise e, emit EvMakedirs st)
  end.

(** The lambda of [ydl_opts['progress_hooks']] (lines 117-119). *)
Definition progress_hook (d : progress_dict) : M unit :=
  if String.eqb (status d) "downloading" then
    notify (MsgDownloading (default "0%" (percent_str d))
                           (default "Unknown" (total_bytes_str d)))
  else ret tt.

(** The hooks are installed only when there is a callback. *)
Definition progress_hooks : list (progress_dict → M unit) :=
  match progress_callback self with
  | None => []
  | Some _ => [progress_hook]
  end.

Fixpoint run_hooks (hooks : list (progress_dict → M unit))
    (d : progress_dict) : M unit :=
  match hooks with
  | [] => ret tt
  | h :: hooks' => _ <- h d ;; run_hooks hooks' d
  end.

Fixpoint report_progress (ds : list progress_dict) : M unit :=
  match ds with
  | [] => ret tt
  | d :: ds' => _ <- run_hooks progress_hooks d ;; report_progress ds'
  end.

(** [ydl.extract_info(url, download=True)]: the service reports its
    progress to the hooks and then answers.  When a hook raises, the
    download stops there and the service answers as [hook_error] says. *)
Definition ydl_extract_info (url : string) : M (option info_dict) :=
  _ <- log (EvExtractInfo url) ;;
  result <- try_except
              (_ <- report_progress (extract_info w url).1 ;;
               ret (extract_info w url).2)
              (λ e, ret (hook_error w url e)) ;;
  reply result.

Definition download_video (url : string) : M bool :=
  try_except
    (there <- os_path_exists ;;
     _ <- (if there then ret tt else os_makedirs) ;;
     info <- ydl_extract_info url ;;
     match info with
     | Some i =>
         _ <- notify (MsgSuccess (default "Unknown title" (title i))) ;;
         ret true
     | None => ret false
     end)
    (λ e,
     _ <- notify (MsgError (str e)) ;;
     ret false).

(** *** download_mix *)

(** [for index, video_url in enumerate(video_urls, 1)] (lines 153-158);
    [total] is [len(video_urls)] of the whole list. *)
Fixpoint for_videos (total index : nat) (video_urls : list string)
    (successful_downloads : Z) : M Z :=
  match video_urls with
  | [] => ret successful_downloads
  | video_url :: rest =>
      _ <- notify (MsgProcessing index total) ;;
      ok <- download_video video_url ;;
      _ <- sleep 1 ;;
      for_videos total (S index) rest
        (if ok then successful_downloads + 1 else successful_downloads)
  end.

Definition download_mix (fuel : nat) (mix_url : string) (num_videos : Z)
  : M Z :=
  _ <- notify MsgStarting ;;
  video_urls <- get_mix_videos fuel mix_url num_videos ;;
  successful_downloads <-
    for_videos (length video_urls) 1 video_urls 0 ;;
  _ <- notify (MsgComplete successful_downloads) ;;
  ret successful_downloads.

(** *** The loop seen from outside *)

(** The clean URL an anchor contributes, if any. *)
Definition normalize (href : option string) : option string :=
  match href with
  | Some h => if is_watch_href h then Some (clean_youtube_url h) else None
  | None => None
  end.

Definition normalized (hrefs : list (option string)) : list string :=
  omap normalize hrefs.

(** The [href]s read in one scroll round. *)
Definition round_hrefs (round : nat) : list (option string) :=
  match find_elements w round with
  | Returns items => map href_of items
  | Raises _ => []
  end.

(** The [href]s read in the first [k] rounds, in the order read. *)
Fixpoint harvested (k : nat) : list (option string) :=
  match k with
  | O => []
  | S k' => harvested k' ++ round_hrefs k'
  end.

Definition collected (k : nat) : list string :=
  first_seen (normalized (harvested k)).

(** [loop_at n st0 k urls st]: started in [st0] with an empty list, the
    loop stands after its [k]-th round with [video_urls = urls] in
    state [st]. *)
Inductive loop_at (num_videos : Z) (st0 : state)
  : nat → list string → state → Prop :=
| loop_start : loop_at num_videos st0 0 [] st0
| loop_round k urls st urls' st' :
    loop_at num_videos st0 k urls st →
    Z.of_nat (length urls) < num_videos →
    round_body k urls st = (Return urls', st') →
    loop_at num_videos st0 (S k) urls' st'.

(** The for loop of [download_mix], item by item: [batch i urls st bs
    st'] when [download_video] returned the booleans [bs]. *)
Inductive batch (total : nat)
  : nat → list string → state → list bool → state → Prop :=
| batch_nil index st : batch total index [] st [] st
| batch_cons index url rest st st1 ok st2 st3 bs st' :
    notify (MsgProcessing index total) st = (Return tt, st1) →
    download_video url st1 = (Return ok, st2) →
    sleep 1 st2 = (Return tt, st3) →
    batch total (S index) rest st3 bs st' →
    batch total index (url :: rest) st (ok :: bs) st'.

(** Collaborators that do not raise. *)
Definition sink_quiet : Prop :=
  ∀ cb text, progress_callback self = Some cb → cb text = Returns tt.

Definition browser_quiet : Prop :=
  ∀ round,
    execute_script w round = Returns tt ∧
    ∃ items, find_elements w round = Returns items ∧ Forall readable items.

(** The output directory is there or can be made. *)
Definition dir_ready (st : state) : bool :=
  dir_exists st ||
  match makedirs w (output_path self) with
  | Returns _ => true
  | Raises _ => false
  end.

(** The service returns metadata for the URL. *)
Definition has_metadata (url : string) : bool :=
  match (extract_info w url).2 with
  | Returns (Some _) => true
  | _ => false
  end.

(** The service raises or returns no metadata. *)
Definition service_fails (url : string) : Prop :=
  (∃ e, (extract_info w url).2 = Raises e) ∨
  (extract_info w url).2 = Returns None.

(** What one round makes of [video_urls] when every call returns. *)
Definition round_value (round : nat) (video_urls : list string)
  : list string :=
  dict_keys (dict_fromkeys (fold_left add_href (round_hrefs round) video_urls)).

(** The state after a message to a callback that returns. *)
Definition told (m : message) (st : state) : state :=
  match progress_callback self with
  | None => st
  | Some _ => emit (EvProgress m) st
  end.

(** [keeps p m]: running [m] makes no call of kind [p]. *)
Definition keeps (p : event → bool) {A} (m : M A) : Prop :=
  ∀ st o st', m st = (o, st') → count_events p st' = count_events p st.

(** *** Kinds of calls *)

Definition is_progress (ev : event) : bool :=
  match ev with EvProgress _ => true | _ => false end.

Definition is_browser_call (ev : event) : bool :=
  match ev with
  | EvSetupDriver | EvGet _ | EvScroll | EvFindElements | EvGetAttribute
  | EvQuit => true
  | _ => false
  end.

Definition is_download_call (ev : event) : bool :=
  match ev with
  | EvPathExists | EvMakedirs | EvExtractInfo _ => true
  | _ => false
  end.

Definition is_makedirs (ev : event) : bool :=
  match ev with EvMakedirs => true | _ => false end.

Definition is_path_exists (ev : event) : bool :=
  match ev with EvPathExists => true | _ => false end.

Definition is_find_elements (ev : event) : bool :=
  match ev with EvFindElements => true | _ => false end.

(** [adds P m]: whatever [m] does, it only appends calls of kind [P] to
    the trace, and unless [os.makedirs] is among them the directory is
    as it was. *)
Definition adds (P : event → bool) {A} (m : M A) : Prop :=
  ∀ st o st', m st = (o, st') →
    (∃ evs, trace st' = trace st ++ evs ∧ Forall (λ ev, P ev = true) evs) ∧
    (P EvMakedirs = false → dir_exists st' = dir_exists st).

(** The messages of the program are of kind [P], or nobody listens. *)
Definition talk (P : event → bool) : Prop :=
  progress_callback self = None ∨ ∀ m, P (EvProgress m) = true.

(** The start markers sent, as [(index, total)], in order. *)
Definition markers (st : state) : list (nat * nat) :=
  omap (λ ev, match ev with
              | EvProgress (MsgProcessing i n) => Some (i, n)
              | _ => None
              end) (trace st).

(** ** First-seen order *)

Lemma elem_of_first_seen (l : list string) (x : string) :
  x ∈ first_seen l ↔ x ∈ l.
Proof.
  induction l as [|y l IH]; simpl; [done|].
  rewrite !elem_of_cons, list_elem_of_filter, IH.
  destruct (decide (x = y)); tauto.
Qed.

Lemma NoDup_first_seen (l : list string) : NoDup (first_seen l).
Proof.
  induction l as [|y l IH]; simpl; constructor.
  - rewrite list_elem_of_filter. tauto.
  - by apply NoDup_filter.
Qed.

Lemma first_seen_snoc (l : list string) (x : string) :
  first_seen (l ++ [x]) = append_new (first_seen l) x.
Proof.
  unfold append_new. induction l as [|y l IH]; simpl; [done|].
  rewrite IH.
  destruct (decide (x = y)) as [->|Hne].
  - rewrite (bool_decide_eq_true_2 (y ∈ y :: _)) by apply list_elem_of_here.
    case_bool_decide; [done|].
    rewrite filter_app, filter_cons_False, filter_nil, app_nil_r; tauto.
  - case_bool_decide as Hin.
    + rewrite bool_decide_eq_true_2; [done|].
      apply list_elem_of_further, list_elem_of_filter; tauto.
    + rewrite bool_decide_eq_false_2.
      * rewrite filter_app, filter_cons_True; done.
      * rewrite elem_of_cons, list_elem_of_filter. tauto.
Qed.

Lemma fold_append_new (l : list string) :
  fold_left append_new l [] = first_seen l.
Proof.
  induction l as [|x l IH] using rev_ind; [done|].
  by rewrite fold_left_app, first_seen_snoc, IH.
Qed.

Lemma filter_other (l : list string) (x : string) :
  x ∉ l → filter (λ y, y ≠ x) l = l.
Proof.
  induction l as [|y l IH]; [done|].
  rewrite not_elem_of_cons. intros [Hne Hl].
  rewrite filter_cons_True by congruence. by rewrite IH.
Qed.

Lemma first_seen_NoDup (l : list string) : NoDup l → first_seen l = l.
Proof.
  induction 1 as [|x l Hx _ IH]; simpl; [done|].
  by rewrite IH, filter_other.
Qed.

Lemma first_seen_prefix (l1 l2 : list string) :
  l1 `prefix_of` l2 → first_seen l1 `prefix_of` first_seen l2.
Proof.
  intros [t ->]. induction t as [|x t IH] using rev_ind.
  - by rewrite app_nil_r.
  - rewrite app_assoc, first_seen_snoc. unfold append_new.
    case_bool_decide; [done|]. by apply prefix_app_r.
Qed.

(** ** The dictionary pass and the membership check *)

Lemma dict_keys_setitem (d : dict) (k : string) :
  dict_keys (dict_setitem d k) = append_new (dict_keys d) k.
Proof.
  unfold dict_setitem, append_new, dict_keys.
  case_bool_decide; [done|]. by rewrite fmap_app.
Qed.

Lemma dict_keys_fold (keys : list string) (d : dict) :
  dict_keys (fold_left dict_setitem keys d) =
  fold_left append_new keys (dict_keys d).
Proof.
  revert d. induction keys as [|k keys IH]; intros d; simpl; [done|].
  by rewrite IH, dict_keys_setitem.
Qed.

Lemma dict_keys_fromkeys (keys : list string) :
  dict_keys (dict_fromkeys keys) = first_seen keys.
Proof.
  unfold dict_fromkeys. by rewrite dict_keys_fold, fold_append_new.
Qed.

Lemma add_href_normalize (video_urls : list string) (href : option string) :
  add_href video_urls href =
  match normalize href with
  | Some c => append_new video_urls c
  | None => video_urls
  end.
Proof.
  unfold add_href, normalize. destruct href as [h|]; [|done].
  by destruct (is_watch_href h).
Qed.

Lemma fold_add_href (hrefs : list (option string)) (video_urls : list string) :
  fold_left add_href hrefs video_urls =
  fold_left append_new (normalized hrefs) video_urls.
Proof.
  revert video_urls.
  induction hrefs as [|h hrefs IH]; intros video_urls; simpl; [done|].
  rewrite IH, add_href_normalize. unfold normalized. simpl.
  by destruct (normalize h).
Qed.

Lemma fold_append_new_app (l1 l2 : list string) :
  fold_left append_new l2 (first_seen l1) = first_seen (l1 ++ l2).
Proof. by rewrite <- !fold_append_new, fold_left_app. Qed.

Lemma round_value_collected (k : nat) :
  round_value k (collected k) = collected (S k).
Proof.
  unfold round_value, collected. simpl.
  rewrite dict_keys_fromkeys, fold_add_href, fold_append_new_app.
  unfold normalized. rewrite omap_app.
  apply first_seen_NoDup, NoDup_first_seen.
Qed.

Lemma harvested_prefix (j k : nat) :
  (j ≤ k)%nat → harvested j `prefix_of` harvested k.
Proof.
  induction 1 as [|k _ IH]; [done|]. simpl. by apply prefix_app_r.
Qed.

Lemma collected_prefix (j k : nat) :
  (j ≤ k)%nat → collected j `prefix_of` collected k.
Proof.
  intros Hjk. apply first_seen_prefix.
  destruct (harvested_prefix j k Hjk) as [t ->].
  unfold normalized. rewrite omap_app. by apply prefix_app_r.
Qed.

(** ** Running the monad *)

Lemma bind_Return {A B} (m : M A) (k : A → M B) st a st1 :
  m st = (Return a, st1) → bind m k st = k a st1.
Proof. unfold bind. by intros ->. Qed.

Lemma bind_inv_Return {A B} (m : M A) (k : A → M B) st b st' :
  bind m k st = (Return b, st') →
  ∃ a st1, m st = (Return a, st1) ∧ k a st1 = (Return b, st').
Proof.
  unfold bind. destruct (m st) as [[a|e|] st1]; intros Heq;
    [eauto | discriminate | discriminate].
Qed.

Lemma call_eq {A} (ev : event) (a : answer A) st :
  call ev a st =
  (match a with Returns x => Return x | Raises e => Raise e end, emit ev st).
Proof. by destruct a. Qed.

Lemma call_inv_Return {A} (ev : event) (a : answer A) st x st' :
  call ev a st = (Return x, st') → a = Returns x ∧ st' = emit ev st.
Proof. rewrite call_eq. destruct a; intros [= <- <-]; done. Qed.

Lemma notify_quiet (m : message) st :
  sink_quiet → notify m st = (Return tt, told m st).
Proof.
  unfold sink_quiet, notify, told. intros Hq.
  destruct (progress_callback self) as [cb|]; [|done].
  by rewrite call_eq, (Hq cb).
Qed.

Lemma for_items_inv (items : list element) video_urls st urls' st' :
  for_items items video_urls st = (Return urls', st') →
  urls' = fold_left add_href (map href_of items) video_urls.
Proof.
  revert video_urls st.
  induction items as [|item items IH]; intros video_urls st; simpl.
  - by intros [= <- <-].
  - intros (href & st1 & Hc & Hk)%bind_inv_Return.
    apply call_inv_Return in Hc as [-> ->]. by apply IH in Hk.
Qed.

Lemma for_items_readable (items : list element) video_urls st :
  Forall readable items →
  ∃ st', for_items items video_urls st =
         (Return (fold_left add_href (map href_of items) video_urls), st').
Proof.
  intros Hall. revert video_urls st.
  induction Hall as [|item items [h ->] _ IH]; intros video_urls st; simpl.
  - by eexists.
  - destruct (IH (add_href video_urls h) (emit EvGetAttribute st))
      as [st' Hst'].
    exists st'. by erewrite bind_Return by reflexivity.
Qed.

Lemma round_body_inv (k : nat) video_urls st urls' st' :
  round_body k video_urls st = (Return urls', st') →
  urls' = round_value k video_urls.
Proof.
  unfold round_body, round_value, round_hrefs.
  intros (_ & st1 & _ & H1)%bind_inv_Return.
  apply bind_inv_Return in H1 as (_ & st2 & _ & H2).
  apply bind_inv_Return in H2 as (items & st3 & Hf & H3).
  apply call_inv_Return in Hf as [-> _].
  apply bind_inv_Return in H3 as (l & st4 & Hi & H4).
  apply for_items_inv in Hi as ->.
  apply bind_inv_Return in H4 as (_ & st5 & _ & H5).
  by injection H5 as <- _.
Qed.

Lemma round_body_quiet (k : nat) video_urls st :
  sink_quiet → browser_quiet →
  ∃ st', round_body k video_urls st = (Return (round_value k video_urls), st').
Proof.
  intros Hs Hb. destruct (Hb k) as (Hscroll & items & Hfind & Hread).
  unfold round_body, round_value, round_hrefs. rewrite Hscroll, Hfind.
  set (st3 := emit EvFindElements (emit (EvSleep 2) (emit EvScroll st))).
  destruct (for_items_readable items video_urls st3 Hread) as [st4 H4].
  eexists.
  do 3 erewrite bind_Return by reflexivity.
  erewrite bind_Return by apply H4.
  erewrite bind_Return by by apply notify_quiet.
  reflexivity.
Qed.

(** ** The scroll loop *)

Lemma NoDup_append_new (l : list string) (c : string) :
  NoDup l → NoDup (append_new l c).
Proof.
  unfold append_new. intros Hl. case_bool_decide as Hc; [done|].
  apply NoDup_app. split_and!; [done| |apply NoDup_singleton].
  intros x Hx ->%list_elem_of_singleton. done.
Qed.

Lemma NoDup_fold_add_href (hrefs : list (option string)) (l : list string) :
  NoDup l → NoDup (fold_left add_href hrefs l).
Proof.
  revert l. induction hrefs as [|h hrefs IH]; intros l Hl; simpl; [done|].
  apply IH. rewrite add_href_normalize.
  destruct (normalize h); [by apply NoDup_append_new|done].
Qed.

Lemma loop_at_collected N st0 k urls st :
  loop_at N st0 k urls st → urls = collected k.
Proof.
  induction 1 as [|k urls st urls' st' _ IH _ Hbody]; [done|].
  apply round_body_inv in Hbody. subst. apply round_value_collected.
Qed.

Lemma elem_of_collected (k : nat) (c : string) :
  c ∈ collected k ↔
  ∃ href, Some href ∈ harvested k ∧ is_watch_href href = true ∧
          c = clean_youtube_url href.
Proof.
  unfold collected, normalized.
  rewrite elem_of_first_seen, list_elem_of_omap. unfold normalize. split.
  - intros ([href|] & Hin & Hc); [|done]. exists href.
    destruct (is_watch_href href); [|done]. by injection Hc as <-.
  - intros (href & Hin & Hw & ->). exists (Some href). by rewrite Hw.
Qed.

(** C1: at every round of the scroll loop of [get_mix_videos] the
    collected list [video_urls] has no repeated entry, holds exactly
    the normalized watch addresses harvested so far, each once and in
    the order in which it was first seen, and extends the list of every
    earlier round: it only grows and never shrinks. *)
Theorem collected_urls_invariant N st0 k urls st :
  loop_at N st0 k urls st →
  NoDup urls ∧
  urls = first_seen (normalized (harvested k)) ∧
  (∀ c, c ∈ urls ↔
        ∃ href, Some href ∈ harvested k ∧ is_watch_href href = true ∧
                c = clean_youtube_url href) ∧
  (∀ j urls_j st_j,
      loop_at N st0 j urls_j st_j → (j ≤ k)%nat →
      urls_j `prefix_of` urls ∧ (length urls_j ≤ length urls)%nat).
Proof.
  intros Hk. apply loop_at_collected in Hk as ->. split_and!.
  - apply NoDup_first_seen.
  - done.
  - apply elem_of_collected.
  - intros j urls_j st_j ->%loop_at_collected Hjk.
    pose proof (collected_prefix j k Hjk) as Hpre.
    split; [done|]. by apply prefix_length.
Qed.

(** C8: the [list(dict.fromkeys(video_urls))] pass at the end of a
    round changes nothing: the list that the membership check of the
    [for] loop leaves has no repeated entry, and the pass returns it as
    it is, same elements in the same order. *)
Theorem safety_net_dedup_is_identity items video_urls st urls' st' :
  NoDup video_urls →
  for_items items video_urls st = (Return urls', st') →
  NoDup urls' ∧ dict_keys (dict_fromkeys urls') = urls'.
Proof.
  intros Hnd ->%for_items_inv.
  pose proof (NoDup_fold_add_href (map href_of items) _ Hnd) as Hnd'.
  split; [done|]. by rewrite dict_keys_fromkeys, first_seen_NoDup.
Qed.

Lemma while_rounds_done N fuel k urls st :
  N ≤ Z.of_nat (length urls) →
  while_rounds N fuel k urls st = (Return urls, st).
Proof.
  intros Hle. destruct fuel; simpl;
    by rewrite (proj2 (Z.ltb_ge _ _)) by done.
Qed.

Lemma while_rounds_step N fuel k urls st urls' st' :
  Z.of_nat (length urls) < N →
  round_body k urls st = (Return urls', st') →
  while_rounds N (S fuel) k urls st = while_rounds N fuel (S k) urls' st'.
Proof.
  intros Hlt Hbody. simpl.
  rewrite (proj2 (Z.ltb_lt _ _)) by done.
  erewrite bind_Return by exact Hbody.
  destruct (Z.leb_spec N (Z.of_nat (length urls'))) as [Hle|Hgt]; [|done].
  by rewrite while_rounds_done.
Qed.

Lemma loop_at_while N st0 k urls st :
  loop_at N st0 k urls st →
  ∀ f, while_rounds N (f + k) 0 [] st0 = while_rounds N f k urls st.
Proof.
  induction 1 as [|k urls st urls' st' _ IH Hlt Hbody]; intros f.
  - by rewrite Nat.add_0_r.
  - replace (f + S k)%nat with (S f + k)%nat by lia.
    rewrite IH. by apply while_rounds_step.
Qed.

Lemma loop_at_exit N st0 k urls st fuel :
  loop_at N st0 k urls st → N ≤ Z.of_nat (length urls) → (k ≤ fuel)%nat →
  while_rounds N fuel 0 [] st0 = (Return urls, st).
Proof.
  intros Hk Hle Hfuel.
  replace fuel with ((fuel - k) + k)%nat by lia.
  rewrite (loop_at_while _ _ _ _ _ Hk). by apply while_rounds_done.
Qed.

Lemma while_rounds_inv N st0 fuel :
  ∀ j urls_j st_j urls st,
    loop_at N st0 j urls_j st_j →
    while_rounds N fuel j urls_j st_j = (Return urls, st) →
    ∃ k, (j ≤ k ≤ j + fuel)%nat ∧ loop_at N st0 k urls st ∧
         N ≤ Z.of_nat (length urls).
Proof.
  induction fuel as [|fuel IH]; intros j urls_j st_j urls st Hj; simpl.
  - destruct (Z.ltb_spec (Z.of_nat (length urls_j)) N); [done|].
    intros [= <- <-]. exists j. split_and!; [lia|lia|done|done].
  - destruct (Z.ltb_spec (Z.of_nat (length urls_j)) N) as [Hlt|Hge].
    + intros (urls' & st' & Hbody & Hrest)%bind_inv_Return.
      pose proof (loop_round _ _ _ _ _ _ _ Hj Hlt Hbody) as Hnext.
      destruct (Z.leb_spec N (Z.of_nat (length urls'))) as [Hle|Hgt].
      * injection Hrest as <- <-. exists (S j).
        split_and!; [lia|lia|done|done].
      * apply (IH _ _ _ _ _ Hnext) in Hrest as (k & Hk & Hat & Hle).
        exists k. split_and!; [lia|lia|done|done].
    + intros [= <- <-]. exists j. split_and!; [lia|lia|done|done].
Qed.

(** With quiet collaborators the loop gets as far as any round it has
    not left before. *)
Lemma quiet_rounds N st0 (k : nat) :
  sink_quiet → browser_quiet →
  (∃ k' urls st, (k' ≤ k)%nat ∧ loop_at N st0 k' urls st ∧
                 N ≤ Z.of_nat (length urls)) ∨
  (∃ st, loop_at N st0 k (collected k) st ∧
         Z.of_nat (length (collected k)) < N).
Proof.
  intros Hs Hb. induction k as [|k IH].
  - destruct (Z.le_gt_cases N 0) as [Hle|Hgt].
    + left. exists O, [], st0. split_and!; [done|constructor|done].
    + right. exists st0. split; [constructor|simpl; lia].
  - destruct IH as [(k' & urls & st & Hk' & Hat & Hle)|(st & Hat & Hlt)].
    + left. exists k', urls, st. split_and!; [lia|done|done].
    + destruct (round_body_quiet k (collected k) st Hs Hb) as [st' Hbody].
      rewrite round_value_collected in Hbody.
      pose proof (loop_round _ _ _ _ _ _ _ Hat Hlt Hbody) as Hnext.
      destruct (Z.le_gt_cases N (Z.of_nat (length (collected (S k)))))
        as [Hle|Hgt].
      * left. exists (S k), (collected (S k)), st'.
        split_and!; [lia|done|done].
      * right. exists st'. split; [done|lia].
Qed.

Lemma stalled_loop_runs_on N fuel :
  sink_quiet → browser_quiet →
  (∀ k, Z.of_nat (length (collected k)) < N) →
  ∀ k st, ∃ st', while_rounds N fuel k (collected k) st = (OutOfFuel, st').
Proof.
  intros Hs Hb Hlow. induction fuel as [|fuel IH]; intros k st; simpl;
    rewrite (proj2 (Z.ltb_lt _ _)) by apply Hlow.
  - by eexists.
  - destruct (round_body_quiet k (collected k) st Hs Hb) as [st' Hbody].
    rewrite round_value_collected in Hbody.
    erewrite bind_Return by exact Hbody.
    rewrite (proj2 (Z.leb_gt _ _)) by apply Hlow.
    apply IH.
Qed.

(** C6: for a positive [num_videos] the scroll loop of
    [get_mix_videos] is left normally if and only if some round brings
    the collected list to at least [num_videos] entries.  So when the
    collaborators do not raise and the page supplies [num_videos]
    distinct normalized addresses by some round, the loop ends; and when
    the page stops producing new addresses while the count is below
    [num_videos], the loop is still running whatever the fuel: it has no
    other exit. *)
Theorem scroll_loop_exit N st0 :
  0 < N →
  ((∃ fuel urls st, while_rounds N fuel 0 [] st0 = (Return urls, st)) ↔
   (∃ k urls st, (0 < k)%nat ∧ loop_at N st0 k urls st ∧
                 N ≤ Z.of_nat (length urls))) ∧
  (sink_quiet → browser_quiet →
   ∀ k, N ≤ Z.of_nat (length (collected k)) →
        ∃ urls st, ∀ fuel, (k ≤ fuel)%nat →
          while_rounds N fuel 0 [] st0 = (Return urls, st)) ∧
  (sink_quiet → browser_quiet →
   ∀ r, Z.of_nat (length (collected r)) < N →
        (∀ k, (r ≤ k)%nat → collected k = collected r) →
        ∀ fuel, ∃ st, while_rounds N fuel 0 [] st0 = (OutOfFuel, st)).
Proof.
  intros Hpos. split_and!.
  - split.
    + intros (fuel & urls & st & Hrun).
      apply (while_rounds_inv N st0 fuel 0 [] st0) in Hrun
        as (k & _ & Hat & Hle); [|constructor].
      exists k, urls, st. split_and!; [|done|done].
      destruct k; [|lia]. inversion Hat; subst. simpl in Hle. lia.
    + intros (k & urls & st & _ & Hat & Hle).
      exists k, urls, st. by eapply loop_at_exit.
  - intros Hs Hb k Hreach.
    destruct (quiet_rounds N st0 k Hs Hb)
      as [(k' & urls & st & Hk' & Hat & Hle)|(st & _ & Hlt)]; [|lia].
    exists urls, st. intros fuel Hfuel.
    eapply loop_at_exit; [done|done|lia].
  - intros Hs Hb r Hlt Hstall fuel.
    apply (stalled_loop_runs_on N fuel Hs Hb) with (k := O) (st := st0).
    intros k. destruct (Nat.le_gt_cases r k) as [Hrk|Hkr].
    + by rewrite Hstall.
    + pose proof (prefix_length _ _ (collected_prefix k r ltac:(lia))). lia.
Qed.

(** ** Counting calls *)

Lemma count_events_emit p ev st :
  count_events p (emit ev st) =
  (count_events p st + (if p ev then 1 else 0))%nat.
Proof.
  unfold count_events, emit. simpl. rewrite filter_app, length_app.
  f_equal. destruct (p ev) eqn:Hp.
  - by rewrite filter_cons_True.
  - rewrite filter_cons_False; [done|]. by rewrite Hp.
Qed.

Lemma keeps_ret p {A} (a : A) : keeps p (ret a).
Proof. by intros st o st' [= <- <-]. Qed.

Lemma keeps_bind p {A B} (m : M A) (k : A → M B) :
  keeps p m → (∀ a, keeps p (k a)) → keeps p (bind m k).
Proof.
  intros Hm Hk st o st'. unfold bind.
  destruct (m st) as [[a|e|] st1] eqn:Hrun; apply Hm in Hrun.
  - intros Hrest%Hk. congruence.
  - intros [= <- <-]. done.
  - intros [= <- <-]. done.
Qed.

Lemma keeps_log p ev : p ev = false → keeps p (log ev).
Proof.
  intros Hp st o st' [= <- <-]. rewrite count_events_emit, Hp. lia.
Qed.

Lemma keeps_call p {A} ev (a : answer A) : p ev = false → keeps p (call ev a).
Proof.
  intros Hp st o st'. rewrite call_eq. intros [= <- <-].
  rewrite count_events_emit, Hp. lia.
Qed.

Lemma keeps_notify p m : p (EvProgress m) = false → keeps p (notify m).
Proof.
  intros Hp. unfold notify. destruct (progress_callback self).
  - by apply keeps_call.
  - apply keeps_ret.
Qed.

Lemma keeps_for_items p items video_urls :
  p EvGetAttribute = false → keeps p (for_items items video_urls).
Proof.
  intros Hp. revert video_urls.
  induction items as [|item items IH]; intros video_urls; simpl.
  - apply keeps_ret.
  - apply keeps_bind; [by apply keeps_call|]. intros href. apply IH.
Qed.

Ltac keeps_step :=
  first [ by apply keeps_call | by apply keeps_log
        | by apply keeps_for_items | by apply keeps_notify
        | apply keeps_ret
        | apply keeps_bind; [|intros ?] ].

Lemma keeps_quit_round_body k video_urls :
  keeps is_quit (round_body k video_urls).
Proof. unfold round_body, sleep. repeat keeps_step. Qed.

Lemma keeps_quit_while_rounds N fuel :
  ∀ k video_urls, keeps is_quit (while_rounds N fuel k video_urls).
Proof.
  induction fuel as [|fuel IH]; intros k video_urls; simpl;
    destruct (_ <? _).
  - by intros st o st' [= <- <-].
  - apply keeps_ret.
  - apply keeps_bind; [apply keeps_quit_round_body|].
    intros urls'. destruct (_ <=? _); [apply keeps_ret|apply IH].
  - apply keeps_ret.
Qed.

Lemma keeps_quit_scrape fuel url N : keeps is_quit (scrape fuel url N).
Proof.
  unfold scrape, sleep. repeat keeps_step. apply keeps_quit_while_rounds.
Qed.

(** ** get_mix_videos as a whole *)

Lemma get_mix_videos_eq fuel url N st :
  setup_driver w = Returns tt →
  get_mix_videos fuel url N st =
  match scrape fuel url N (emit EvSetupDriver st) with
  | (Return urls, st2) =>
      (match driver_quit w with
       | Returns _ => Return (slice_to urls N)
       | Raises e => Raise e
       end, emit EvQuit st2)
  | (Raise e, st2) =>
      (match driver_quit w with
       | Returns _ => Raise e
       | Raises e' => Raise e'
       end, emit EvQuit st2)
  | (OutOfFuel, st2) => (OutOfFuel, st2)
  end.
Proof.
  intros Hsetup. unfold get_mix_videos. rewrite Hsetup.
  erewrite bind_Return by reflexivity.
  unfold bind, try_finally.
  destruct (scrape fuel url N (emit EvSetupDriver st)) as [[urls|e|] st2];
    [| |done]; rewrite call_eq; by destruct (driver_quit w).
Qed.

Lemma get_mix_videos_no_driver fuel url N st e :
  setup_driver w = Raises e →
  get_mix_videos fuel url N st = (Raise e, emit EvSetupDriver st).
Proof. intros Hsetup. unfold get_mix_videos. by rewrite Hsetup. Qed.

Lemma slice_to_positive {A} (l : list A) (n : Z) :
  0 ≤ n → slice_to l n = take (Z.to_nat n) l.
Proof. intros Hn. unfold slice_to. by rewrite (proj2 (Z.leb_le _ _)). Qed.

(** C2: for a positive [num_videos], on a run whose collected list
    reaches [num_videos] entries or more, [get_mix_videos] returns
    exactly the first [num_videos] of the collected addresses, in the
    order of discovery; the returned list has length [num_videos]. *)
Theorem get_mix_videos_returns_first_N url N st st1 k urls st2 :
  0 < N →
  setup_driver w = Returns tt →
  notify MsgLoading (emit EvSetupDriver st) = (Return tt, st1) →
  driver_get w url = Returns tt →
  loop_at N (emit (EvSleep 3) (emit (EvGet url) st1)) k urls st2 →
  N ≤ Z.of_nat (length urls) →
  driver_quit w = Returns tt →
  ∀ fuel, (k ≤ fuel)%nat →
    get_mix_videos fuel url N st =
      (Return (take (Z.to_nat N) urls), emit EvQuit st2) ∧
    length (take (Z.to_nat N) urls) = Z.to_nat N ∧
    take (Z.to_nat N) urls = take (Z.to_nat N) (collected k).
Proof.
  intros Hpos Hsetup Hload Hget Hat Hle Hquit fuel Hfuel. split_and!.
  - rewrite get_mix_videos_eq by done. unfold scrape, sleep.
    erewrite bind_Return by exact Hload. rewrite Hget.
    do 2 erewrite bind_Return by reflexivity.
    erewrite loop_at_exit by done.
    rewrite Hquit, slice_to_positive by lia. done.
  - apply length_take_le. lia.
  - by rewrite (loop_at_collected _ _ _ _ _ Hat).
Qed.

(** C5: once [_setup_driver] has returned the driver, every run of
    [get_mix_videos] that comes to an end, by returning or by raising,
    has called [driver.quit()] exactly once, as its last call. *)
Theorem browser_closed_exactly_once fuel url N st o st' :
  setup_driver w = Returns tt →
  get_mix_videos fuel url N st = (o, st') →
  o ≠ OutOfFuel →
  count_events is_quit st' = S (count_events is_quit st) ∧
  last (trace st') = Some EvQuit.
Proof.
  intros Hsetup Hrun Hend. rewrite get_mix_videos_eq in Hrun by done.
  destruct (scrape fuel url N (emit EvSetupDriver st))
    as [[urls|e|] st2] eqn:Hscrape;
    [| |by injection Hrun as <- _];
    apply keeps_quit_scrape in Hscrape;
    rewrite count_events_emit in Hscrape; simpl in Hscrape;
    injection Hrun as _ <-; rewrite count_events_emit; simpl;
    (split; [lia|apply last_snoc]).
Qed.

(** ** A request for no videos *)

Lemma notify_ends (m : message) st o st' :
  notify m st = (o, st') → o ≠ OutOfFuel.
Proof.
  unfold notify. destruct (progress_callback self) as [cb|].
  - rewrite call_eq. destruct (cb (render m)); by intros [= <- _].
  - by intros [= <- _].
Qed.

Lemma scrape_nonpositive fuel url N st o st' :
  N ≤ 0 → scrape fuel url N st = (o, st') →
  o ≠ OutOfFuel ∧ (∀ l, o = Return l → l = []) ∧
  count_events is_scroll st' = count_events is_scroll st.
Proof.
  intros HN. unfold scrape, sleep, bind.
  destruct (notify MsgLoading st) as [[[]|e|] st1] eqn:Hnote.
  - apply (keeps_notify is_scroll) in Hnote as Hcount; [|done].
    rewrite call_eq. destruct (driver_get w url) as [[]|e].
    + simpl. rewrite while_rounds_done by (simpl; lia).
      intros [= <- <-]. rewrite !count_events_emit. simpl.
      split_and!; [done|by intros l [= <-]|lia].
    + intros [= <- <-]. rewrite count_events_emit. simpl.
      split_and!; [done|done|lia].
  - apply (keeps_notify is_scroll) in Hnote as Hcount; [|done].
    intros [= <- <-]. done.
  - by apply notify_ends in Hnote.
Qed.

Lemma slice_to_nil {A} (n : Z) : slice_to (@nil A) n = [].
Proof. unfold slice_to. destruct (0 <=? n); apply take_nil. Qed.

Lemma get_mix_videos_nonpositive fuel url N st o st' :
  N ≤ 0 → get_mix_videos fuel url N st = (o, st') →
  o ≠ OutOfFuel ∧ (∀ l, o = Return l → l = []) ∧
  count_events is_scroll st' = count_events is_scroll st.
Proof.
  intros HN. destruct (setup_driver w) as [[]|e] eqn:Hsetup.
  - rewrite get_mix_videos_eq by done.
    destruct (scrape fuel url N (emit EvSetupDriver st))
      as [o2 st2] eqn:Hscrape.
    apply scrape_nonpositive in Hscrape as (Hend & Hnil & Hcount); [|done].
    rewrite count_events_emit in Hcount. simpl in Hcount.
    destruct o2 as [urls|e|]; [| |done];
      destruct (driver_quit w); intros [= <- <-];
      rewrite count_events_emit; simpl;
      (split_and!; [done| |lia]); try done.
    intros l [= <-]. rewrite (Hnil urls eq_refl). apply slice_to_nil.
  - rewrite (get_mix_videos_no_driver _ _ _ _ e) by done.
    intros [= <- <-]. rewrite count_events_emit. simpl.
    split_and!; [done|done|lia].
Qed.

(** C9: when [num_videos] is zero or negative no run of
    [get_mix_videos] makes a scroll round or stays in the loop, and the
    only list it can return is the empty one; with collaborators that do
    not raise it does return the empty list, and [download_mix] then
    returns 0. *)
Theorem nonpositive_request fuel url N st :
  N ≤ 0 →
  count_events is_scroll (get_mix_videos fuel url N st).2 =
    count_events is_scroll st ∧
  (get_mix_videos fuel url N st).1 ≠ OutOfFuel ∧
  (∀ l, (get_mix_videos fuel url N st).1 = Return l → l = []) ∧
  (sink_quiet → setup_driver w = Returns tt →
   driver_get w url = Returns tt → driver_quit w = Returns tt →
   (get_mix_videos fuel url N st).1 = Return [] ∧
   (download_mix fuel url N st).1 = Return 0 ∧
   count_events is_scroll (download_mix fuel url N st).2 =
     count_events is_scroll st).
Proof.
  intros HN.
  assert (Hgen : ∀ st0, ∃ o st',
             get_mix_videos fuel url N st0 = (o, st') ∧ o ≠ OutOfFuel ∧
             (∀ l, o = Return l → l = []) ∧
             count_events is_scroll st' = count_events is_scroll st0).
  { intros st0. destruct (get_mix_videos fuel url N st0) as [o st'] eqn:Hrun.
    exists o, st'. split; [done|].
    by apply (get_mix_videos_nonpositive fuel url N st0). }
  assert (Hquiet : sink_quiet → setup_driver w = Returns tt →
             driver_get w url = Returns tt → driver_quit w = Returns tt →
             ∀ st0, ∃ st', get_mix_videos fuel url N st0 = (Return [], st') ∧
               count_events is_scroll st' = count_events is_scroll st0).
  { intros Hs Hsetup Hget Hquit st0.
    destruct (Hgen st0) as (o & st' & Hrun & _ & _ & Hcount).
    exists st'. split; [|done]. rewrite Hrun. f_equal.
    rewrite get_mix_videos_eq in Hrun by done. unfold scrape, sleep in Hrun.
    erewrite bind_Return in Hrun by by apply notify_quiet.
    rewrite Hget in Hrun.
    do 2 erewrite bind_Return in Hrun by reflexivity.
    rewrite while_rounds_done, Hquit, slice_to_nil in Hrun by (simpl; lia).
    by injection Hrun as <- _. }
  destruct (Hgen st) as (o & st' & Hrun & Hend & Hnil & Hcount).
  rewrite Hrun. simpl. split_and!; [done|done|done|].
  intros Hs Hsetup Hget Hquit.
  destruct (Hquiet Hs Hsetup Hget Hquit st) as (st1 & Hrun1 & _).
  rewrite Hrun in Hrun1. injection Hrun1 as -> _. split; [done|].
  destruct (Hquiet Hs Hsetup Hget Hquit (told MsgStarting st))
    as (st2 & Hrun2 & Hcount2).
  unfold download_mix.
  erewrite bind_Return by by apply notify_quiet.
  erewrite bind_Return by exact Hrun2. simpl.
  erewrite bind_Return by reflexivity.
  erewrite bind_Return by by apply notify_quiet.
  simpl. split; [done|].
  unfold told in *. destruct (progress_callback self);
    rewrite ?count_events_emit in *; simpl in *; lia.
Qed.

(** ** download_video *)

Lemma extract_calls_emit ev st :
  extract_calls (emit ev st) =
  extract_calls st ++
    match ev with EvExtractInfo u => [u] | _ => [] end.
Proof.
  unfold extract_calls, emit. simpl. rewrite omap_app. f_equal.
  by destruct ev.
Qed.

Lemma told_dir_exists m st : dir_exists (told m st) = dir_exists st.
Proof. unfold told. by destruct (progress_callback self). Qed.

Lemma told_extract_calls m st : extract_calls (told m st) = extract_calls st.
Proof.
  unfold told. destruct (progress_callback self); [|done].
  by rewrite extract_calls_emit, app_nil_r.
Qed.

Lemma progress_hook_quiet d st :
  sink_quiet →
  ∃ st', progress_hook d st = (Return tt, st') ∧
         dir_exists st' = dir_exists st ∧
         extract_calls st' = extract_calls st.
Proof.
  intros Hs. unfold progress_hook. destruct (String.eqb _ _).
  - rewrite notify_quiet by done. eexists. split; [done|].
    by rewrite told_dir_exists, told_extract_calls.
  - by eexists.
Qed.

Lemma report_progress_quiet ds st :
  sink_quiet →
  ∃ st', report_progress ds st = (Return tt, st') ∧
         dir_exists st' = dir_exists st ∧
         extract_calls st' = extract_calls st.
Proof.
  intros Hs. revert st. induction ds as [|d ds IH]; intros st; simpl.
  - by eexists.
  - assert (∃ st1, run_hooks progress_hooks d st = (Return tt, st1) ∧
                   dir_exists st1 = dir_exists st ∧
                   extract_calls st1 = extract_calls st)
      as (st1 & Hrun & Hdir & Hcalls).
    { unfold progress_hooks. destruct (progress_callback self); simpl.
      - destruct (progress_hook_quiet d st Hs) as (st1 & Hrun & Hfacts).
        exists st1. split; [|done]. by erewrite bind_Return by exact Hrun.
      - by eexists. }
    destruct (IH st1) as (st' & Hrest & Hdir' & Hcalls').
    exists st'. erewrite bind_Return by exact Hrun.
    split; [done|]. split; congruence.
Qed.

Lemma ydl_extract_info_quiet url st :
  sink_quiet →
  ∃ st', ydl_extract_info url st =
           (match (extract_info w url).2 with
            | Returns info => Return info
            | Raises e => Raise e
            end, st') ∧
         dir_exists st' = dir_exists st ∧
         extract_calls st' = extract_calls st ++ [url].
Proof.
  intros Hs. unfold ydl_extract_info.
  destruct (report_progress_quiet (extract_info w url).1
              (emit (EvExtractInfo url) st) Hs) as (st' & Hrun & Hdir & Hcalls).
  exists st'. erewrite bind_Return by reflexivity.
  erewrite bind_Return;
    [|unfold try_except; erewrite bind_Return by exact Hrun; reflexivity].
  rewrite Hdir, Hcalls, extract_calls_emit.
  split; [|done]. by destruct (extract_info w url).2.
Qed.

(** What [download_video] does once the directory question is
    settled. *)
Lemma download_step_quiet url st :
  sink_quiet →
  ∃ st',
    bind (ydl_extract_info url)
      (λ info,
         match info with
         | Some i =>
             _ <- notify (MsgSuccess (default "Unknown title" (title i))) ;;
             ret true
         | None => ret false
         end) st =
      (match (extract_info w url).2 with
       | Returns (Some _) => Return true
       | Returns None => Return false
       | Raises e => Raise e
       end, st') ∧
    dir_exists st' = dir_exists st ∧
    extract_calls st' = extract_calls st ++ [url].
Proof.
  intros Hs.
  destruct (ydl_extract_info_quiet url st Hs) as (st1 & Hrun & Hdir & Hcalls).
  unfold bind at 1. rewrite Hrun.
  destruct (extract_info w url).2 as [[i|]|e].
  - erewrite bind_Return by by apply notify_quiet.
    eexists. split; [done|].
    by rewrite told_dir_exists, told_extract_calls.
  - by exists st1.
  - by exists st1.
Qed.

Lemma download_video_quiet url st :
  sink_quiet →
  ∃ st', download_video url st =
           (Return (dir_ready st && has_metadata url), st') ∧
         dir_ready st' = dir_ready st ∧
         extract_calls st' =
           extract_calls st ++ (if dir_ready st then [url] else []).
Proof.
  intros Hs. unfold download_video, try_except, dir_ready, has_metadata.
  unfold bind at 1. unfold os_path_exists.
  destruct (dir_exists st) eqn:Hthere.
  - unfold bind at 1. simpl.
    destruct (download_step_quiet url (emit EvPathExists st) Hs)
      as (st' & Hrun & Hdir & Hcalls).
    rewrite Hrun. rewrite extract_calls_emit, app_nil_r in Hcalls.
    simpl in Hdir. rewrite Hthere in Hdir.
    destruct (extract_info w url).2 as [[i|]|e].
    + exists st'. by rewrite Hdir.
    + exists st'. by rewrite Hdir.
    + erewrite bind_Return by by apply notify_quiet.
      eexists. split; [done|].
      by rewrite told_dir_exists, told_extract_calls, Hdir.
  - unfold bind at 1. unfold os_makedirs. simpl.
    destruct (makedirs w (output_path self)) as [[]|e] eqn:Hmk.
    + destruct (download_step_quiet url
                  (State ((trace st ++ [EvPathExists]) ++ [EvMakedirs]) true)
                  Hs) as (st' & Hrun & Hdir & Hcalls).
      rewrite Hrun.
      assert (extract_calls st' = extract_calls st ++ [url]) as Hcalls'.
      { rewrite Hcalls. f_equal. unfold extract_calls. simpl.
        by rewrite !omap_app, !app_nil_r. }
      simpl in Hdir.
      destruct (extract_info w url).2 as [[i|]|e'].
      * exists st'. by rewrite Hdir.
      * exists st'. by rewrite Hdir.
      * erewrite bind_Return by by apply notify_quiet.
        eexists. split; [done|].
        by rewrite told_dir_exists, told_extract_calls, Hdir.
    + erewrite bind_Return by by apply notify_quiet.
      eexists. split; [done|].
      rewrite told_dir_exists, told_extract_calls, !extract_calls_emit.
      simpl. rewrite Hthere. by rewrite !app_nil_r.
Qed.

(** C10: when the progress callback does not raise, [download_video]
    returns a boolean for every URL and every state of the world; an
    exception of [os.makedirs] or of the download service never comes
    out of it and gives [False], as does a result without metadata. *)
Theorem download_video_total url st :
  sink_quiet →
  ∃ b st',
    download_video url st = (Return b, st') ∧
    (∀ e, dir_exists st = false →
          makedirs w (output_path self) = Raises e → b = false) ∧
    (∀ e, (extract_info w url).2 = Raises e → b = false) ∧
    ((extract_info w url).2 = Returns None → b = false).
Proof.
  intros Hs. destruct (download_video_quiet url st Hs) as (st' & Hrun & _).
  exists (dir_ready st && has_metadata url), st'. split; [done|].
  unfold dir_ready, has_metadata. split_and!.
  - by intros e -> ->.
  - intros e ->. apply andb_false_r.
  - intros ->. apply andb_false_r.
Qed.

(** ** The batch of download_mix *)

Lemma count_true_cons (b : bool) (bs : list bool) :
  count_true (b :: bs) = (if b then 1 else 0) + count_true bs.
Proof.
  unfold count_true. destruct b.
  - rewrite filter_cons_True by done. simpl length. lia.
  - rewrite filter_cons_False by done. lia.
Qed.

Lemma count_true_app (bs1 bs2 : list bool) :
  count_true (bs1 ++ bs2) = count_true bs1 + count_true bs2.
Proof. unfold count_true. rewrite filter_app, length_app. lia. Qed.

Lemma count_true_perm (bs1 bs2 : list bool) :
  bs1 ≡ₚ bs2 → count_true bs1 = count_true bs2.
Proof. unfold count_true. by intros ->. Qed.

Lemma batch_length total i urls st bs st' :
  batch total i urls st bs st' → length bs = length urls.
Proof. induction 1; simpl; congruence. Qed.

Lemma for_videos_batch total i urls st bs st' :
  batch total i urls st bs st' →
  ∀ c, for_videos total i urls c st = (Return (c + count_true bs), st').
Proof.
  induction 1 as [i st|i url rest st st1 ok st2 st3 bs st' Hn Hd Hsl _ IH];
    intros c; simpl.
  - unfold count_true. simpl. by rewrite Z.add_0_r.
  - erewrite bind_Return by exact Hn.
    erewrite bind_Return by exact Hd.
    erewrite bind_Return by exact Hsl.
    rewrite IH, count_true_cons. do 2 f_equal. destruct ok; lia.
Qed.

Lemma batch_item total i url st :
  sink_quiet →
  ∃ st', batch total i [url] st [dir_ready st && has_metadata url] st' ∧
         dir_ready st' = dir_ready st ∧
         extract_calls st' =
           extract_calls st ++ (if dir_ready st then [url] else []).
Proof.
  intros Hs.
  destruct (download_video_quiet url (told (MsgProcessing i total) st) Hs)
    as (st2 & Hrun & Hready & Hcalls).
  assert (dir_ready (told (MsgProcessing i total) st) = dir_ready st)
    as Hsame by (unfold dir_ready; by rewrite told_dir_exists).
  rewrite Hsame, told_extract_calls in *.
  exists (emit (EvSleep 1) st2). split_and!.
  - econstructor; [by apply notify_quiet|exact Hrun|done|constructor].
  - done.
  - by rewrite extract_calls_emit, app_nil_r.
Qed.

Lemma batch_app total i pre post st bs1 st1 bs2 st2 :
  batch total i pre st bs1 st1 →
  batch total (i + length pre) post st1 bs2 st2 →
  batch total i (pre ++ post) st (bs1 ++ bs2) st2.
Proof.
  induction 1 as [i st|i url rest st sta ok stb stc bs st' Hn Hd Hsl _ IH];
    simpl.
  - by rewrite Nat.add_0_r.
  - intros Hpost. econstructor; [done|done|done|].
    apply IH. by replace (S i + length rest)%nat
                   with (i + S (length rest))%nat by lia.
Qed.

Lemma batch_quiet total urls :
  sink_quiet →
  ∀ i st, ∃ bs st',
    batch total i urls st bs st' ∧
    dir_ready st' = dir_ready st ∧
    extract_calls st' =
      extract_calls st ++ (if dir_ready st then urls else []).
Proof.
  intros Hs. induction urls as [|url rest IH]; intros i st.
  - exists [], st. split_and!; [constructor|done|].
    destruct (dir_ready st); by rewrite app_nil_r.
  - destruct (batch_item total i url st Hs) as (st1 & H1 & Hr1 & Hc1).
    destruct (IH (S i) st1) as (bs & st' & H2 & Hr2 & Hc2).
    exists ([dir_ready st && has_metadata url] ++ bs), st'. split_and!.
    + apply (batch_app total i [url] rest st _ st1); [done|].
      simpl. by replace (i + 1)%nat with (S i) by lia.
    + congruence.
    + rewrite Hc2, Hc1, Hr1.
      destruct (dir_ready st); by rewrite <- app_assoc.
Qed.

(** C3: the integer [download_mix] returns is the number of [True]s
    among the booleans [download_video] returned over the URL list, and
    any batch whose outcomes are a rearrangement of these, the failures
    at other positions, is tallied to the same number. *)
Theorem download_mix_counts_successes fuel url N st urls st1 :
  sink_quiet →
  get_mix_videos fuel url N (told MsgStarting st) = (Return urls, st1) →
  ∃ bs st2,
    batch (length urls) 1 urls st1 bs st2 ∧
    length bs = length urls ∧
    download_mix fuel url N st =
      (Return (count_true bs), told (MsgComplete (count_true bs)) st2) ∧
    (∀ total i urls' st_a bs' st_b,
        batch total i urls' st_a bs' st_b → bs' ≡ₚ bs →
        for_videos total i urls' 0 st_a = (Return (count_true bs), st_b)).
Proof.
  intros Hs Hrun.
  destruct (batch_quiet (length urls) urls Hs 1%nat st1)
    as (bs & st2 & Hbatch & _).
  exists bs, st2. split_and!.
  - done.
  - by eapply batch_length.
  - unfold download_mix.
    erewrite bind_Return by by apply notify_quiet.
    erewrite bind_Return by exact Hrun.
    erewrite bind_Return by by apply for_videos_batch.
    simpl. erewrite bind_Return by by apply notify_quiet.
    done.
  - intros total i urls' st_a bs' st_b Hbatch' Hperm.
    rewrite (for_videos_batch _ _ _ _ _ _ Hbatch').
    by rewrite (count_true_perm _ _ Hperm).
Qed.

(** C4, amended: when the progress callback does not raise, a failure
    of the download service on one item of the list, an exception or a
    result without metadata, does not end the batch: the items before it
    and the item itself are processed, the failing item adds nothing to
    the tally, every later item is processed in turn and adds what it
    adds when the rest is run on its own, and [for_videos] returns the
    sum; when the output directory is available every URL of the list is
    handed to the service, in order.  The condition on the callback is
    needed: the handler of [download_video] reports the exception through
    the callback (lines 131-134), nothing guards that call, and the loop
    of [download_mix] has no handler of its own. *)
Theorem failure_does_not_stop_batch total i pre url post c st :
  sink_quiet →
  service_fails url →
  ∃ bs_pre st1 st2 bs_post st',
    batch total i pre st bs_pre st1 ∧
    batch total (i + length pre) [url] st1 [false] st2 ∧
    batch total (S (i + length pre)) post st2 bs_post st' ∧
    length bs_post = length post ∧
    for_videos total (S (i + length pre)) post 0 st2 =
      (Return (count_true bs_post), st') ∧
    for_videos total i (pre ++ url :: post) c st =
      (Return (c + count_true bs_pre + count_true bs_post), st') ∧
    (dir_ready st = true →
     extract_calls st' = extract_calls st ++ pre ++ url :: post).
Proof.
  intros Hs Hfail.
  destruct (batch_quiet total pre Hs i st) as (bs1 & st1 & H1 & Hr1 & Hc1).
  destruct (batch_item total (i + length pre) url st1 Hs)
    as (st2 & H2 & Hr2 & Hc2).
  destruct (batch_quiet total post Hs (S (i + length pre)) st2)
    as (bs3 & st' & H3 & Hr3 & Hc3).
  assert (has_metadata url = false) as Hno.
  { unfold has_metadata. by destruct Hfail as [[e ->]| ->]. }
  rewrite Hno, andb_false_r in H2.
  exists bs1, st1, st2, bs3, st'. split_and!; try done.
  - by eapply batch_length.
  - by rewrite (for_videos_batch _ _ _ _ _ _ H3).
  - assert (batch total i (pre ++ [url] ++ post) st
              (bs1 ++ [false] ++ bs3) st') as Hall.
    { apply (batch_app _ _ _ _ _ _ st1); [done|].
      apply (batch_app _ _ _ _ _ _ st2); [done|].
      simpl. by replace (i + length pre + 1)%nat
               with (S (i + length pre)) by lia. }
    rewrite (for_videos_batch _ _ _ _ _ _ Hall).
    rewrite !count_true_app. do 2 f_equal.
    unfold count_true at 2. simpl. lia.
  - intros Hready. rewrite Hc3, Hr2, Hc2, Hr1, Hc1, Hready.
    by rewrite <- !app_assoc.
Qed.

(** ** Messages about an item *)

Lemma keeps_reply p {A} (a : answer A) : keeps p (reply a).
Proof. destruct a; by intros st o st' [= <- <-]. Qed.

Lemma keeps_try_except p {A} (body : M A) (handler : exn → M A) :
  keeps p body → (∀ e, keeps p (handler e)) → keeps p (try_except body handler).
Proof.
  intros Hb Hh st o st'. unfold try_except.
  destruct (body st) as [[a|e|] st1] eqn:Hrun; apply Hb in Hrun.
  - by intros [= <- <-].
  - intros Hrest%Hh. congruence.
  - by intros [= <- <-].
Qed.

(** The service tells the callback of its progress and of nothing
    else. *)
Lemma keeps_ydl p url :
  p (EvExtractInfo url) = false →
  (∀ percent total, p (EvProgress (MsgDownloading percent total)) = false) →
  keeps p (ydl_extract_info url).
Proof.
  intros Hx Hdl. unfold ydl_extract_info.
  apply keeps_bind; [by apply keeps_log|intros _].
  apply keeps_bind; [|intros result; apply keeps_reply].
  apply keeps_try_except; [|intros e; apply keeps_ret].
  apply keeps_bind; [|intros _; apply keeps_ret].
  induction (extract_info w url).1 as [|d ds IH]; simpl; [apply keeps_ret|].
  apply keeps_bind; [|by intros _].
  unfold progress_hooks. destruct (progress_callback self); simpl;
    [|apply keeps_ret].
  apply keeps_bind; [|intros _; apply keeps_ret].
  unfold progress_hook. destruct (String.eqb _ _);
    [by apply keeps_notify|apply keeps_ret].
Qed.

Lemma keeps_verdict_ydl url : keeps is_verdict (ydl_extract_info url).
Proof. by apply keeps_ydl. Qed.

(** When the service returns no metadata, [download_video] returns
    [False] on line 129 without a word to the callback. *)
Lemma missing_metadata_is_silent url st :
  sink_quiet → dir_ready st = true →
  (extract_info w url).2 = Returns None →
  ∃ st', download_video url st = (Return false, st') ∧
         count_events is_verdict st' = count_events is_verdict st.
Proof.
  intros Hs Hready Hnone. unfold dir_ready in Hready.
  unfold download_video, try_except.
  unfold bind at 1. unfold os_path_exists.
  destruct (dir_exists st) eqn:Hthere.
  - destruct (ydl_extract_info_quiet url (emit EvPathExists st) Hs)
      as (st1 & Hrun & _).
    rewrite Hnone in Hrun. exists st1.
    apply keeps_verdict_ydl in Hrun as Hcount.
    rewrite count_events_emit in Hcount. simpl in Hcount.
    unfold bind at 1. simpl. unfold bind at 1. rewrite Hrun.
    split; [done|lia].
  - simpl in Hready.
    destruct (makedirs w (output_path self)) as [[]|e] eqn:Hmk; [|done].
    destruct (ydl_extract_info_quiet url
                (emit EvMakedirs
                   (State (trace st ++ [EvPathExists]) true)) Hs)
      as (st1 & Hrun & _).
    rewrite Hnone in Hrun. exists st1.
    apply keeps_verdict_ydl in Hrun as Hcount.
    rewrite count_events_emit in Hcount. simpl in Hcount.
    change (count_events is_verdict (State (trace st ++ [EvPathExists]) true))
      with (count_events is_verdict (emit EvPathExists st)) in Hcount.
    rewrite count_events_emit in Hcount. simpl in Hcount.
    unfold bind at 1. unfold os_makedirs. rewrite Hmk. simpl.
    unfold bind at 1. unfold emit in Hrun. simpl in Hrun. rewrite Hrun.
    split; [done|lia].
Qed.

Lemma keeps_markers_ydl url : keeps is_start_marker (ydl_extract_info url).
Proof. by apply keeps_ydl. Qed.

Lemma keeps_markers_download_video url :
  keeps is_start_marker (download_video url).
Proof.
  unfold download_video. apply keeps_try_except.
  - apply keeps_bind.
    { intros st o st' [= <- <-]. rewrite count_events_emit. simpl. lia. }
    intros there. apply keeps_bind.
    { destruct there; [apply keeps_ret|].
      intros st o st'. unfold os_makedirs.
      destruct (makedirs w (output_path self)); intros [= <- <-];
        unfold count_events; simpl;
        rewrite filter_app, length_app, filter_cons_False, filter_nil;
        simpl; auto with lia. }
    intros _. apply keeps_bind; [apply keeps_markers_ydl|].
    intros [i|]; [|apply keeps_ret].
    apply keeps_bind; [by apply keeps_notify|intros _; apply keeps_ret].
  - intros e. apply keeps_bind; [by apply keeps_notify|].
    intros _. apply keeps_ret.
Qed.

(** The part of C7 that holds: with a callback installed, a batch over
    [k] URLs sends exactly [k] start markers. *)
Lemma batch_start_markers cb total i urls st bs st' :
  progress_callback self = Some cb →
  batch total i urls st bs st' →
  count_events is_start_marker st' =
  (count_events is_start_marker st + length urls)%nat.
Proof.
  intros Hcb.
  induction 1 as [i st|i url rest st st1 ok st2 st3 bs st' Hn Hd Hsl _ IH];
    simpl; [lia|].
  unfold notify in Hn. rewrite Hcb, call_eq in Hn.
  injection Hn as _ <-.
  apply keeps_markers_download_video in Hd.
  injection Hsl as <-.
  rewrite IH, count_events_emit, Hd, count_events_emit. simpl. lia.
Qed.

(** ** What a run appends to the trace *)

Lemma adds_ret P {A} (a : A) : adds P (ret a).
Proof.
  intros st o st' [= <- <-]. split; [|done].
  exists []. by rewrite app_nil_r.
Qed.

Lemma adds_bind P {A B} (m : M A) (k : A → M B) :
  adds P m → (∀ a, adds P (k a)) → adds P (bind m k).
Proof.
  intros Hm Hk st o st'. unfold bind.
  destruct (m st) as [[a|e|] st1] eqn:Hrun;
    apply Hm in Hrun as ((evs1 & Htr1 & Hall1) & Hdir1).
  - intros ((evs2 & Htr2 & Hall2) & Hdir2)%Hk. split.
    + exists (evs1 ++ evs2). rewrite Htr2, Htr1, app_assoc.
      split; [done|by apply Forall_app].
    + intros HP. by rewrite Hdir2, Hdir1.
  - intros [= <- <-]. eauto.
  - intros [= <- <-]. eauto.
Qed.

Lemma adds_log P ev : P ev = true → adds P (log ev).
Proof.
  intros HP st o st' [= <- <-]. split; [|done].
  exists [ev]. split; [done|by constructor].
Qed.

Lemma adds_reply P {A} (a : answer A) : adds P (reply a).
Proof.
  destruct a; intros st o st' [= <- <-]; (split; [|done]);
    exists []; by rewrite app_nil_r.
Qed.

Lemma adds_call P {A} ev (a : answer A) : P ev = true → adds P (call ev a).
Proof.
  intros HP. apply adds_bind; [by apply adds_log|intros _; apply adds_reply].
Qed.

Lemma adds_notify P m : talk P → adds P (notify m).
Proof.
  intros Htalk. unfold notify.
  destruct (progress_callback self) as [cb|] eqn:Hcb; [|apply adds_ret].
  destruct Htalk as [Hnone|Hyes]; [congruence|by apply adds_call].
Qed.

Lemma adds_try_except P {A} (body : M A) (handler : exn → M A) :
  adds P body → (∀ e, adds P (handler e)) → adds P (try_except body handler).
Proof.
  intros Hb Hh st o st'. unfold try_except.
  destruct (body st) as [[a|e|] st1] eqn:Hrun;
    apply Hb in Hrun as ((evs1 & Htr1 & Hall1) & Hdir1).
  - intros [= <- <-]. eauto.
  - intros ((evs2 & Htr2 & Hall2) & Hdir2)%Hh. split.
    + exists (evs1 ++ evs2). rewrite Htr2, Htr1, app_assoc.
      split; [done|by apply Forall_app].
    + intros HP. by rewrite Hdir2, Hdir1.
  - intros [= <- <-]. eauto.
Qed.

Lemma adds_try_finally P {A} (body : M A) (final : M unit) :
  adds P body → adds P final → adds P (try_finally body final).
Proof.
  intros Hb Hf st o st'. unfold try_finally.
  destruct (body st) as [[a|e|] st1] eqn:Hrun;
    apply Hb in Hrun as ((evs1 & Htr1 & Hall1) & Hdir1);
    [| |intros [= <- <-]; eauto];
    destruct (final st1) as [[[]|e'|] st2] eqn:Hfin;
    apply Hf in Hfin as ((evs2 & Htr2 & Hall2) & Hdir2);
    intros [= <- <-];
    (split;
     [exists (evs1 ++ evs2); rewrite Htr2, Htr1, app_assoc;
      split; [done|by apply Forall_app]
     |intros HP; by rewrite Hdir2, Hdir1]).
Qed.

Lemma adds_for_items P items video_urls :
  P EvGetAttribute = true → adds P (for_items items video_urls).
Proof.
  intros HP. revert video_urls.
  induction items as [|item items IH]; intros video_urls; simpl.
  - apply adds_ret.
  - apply adds_bind; [by apply adds_call|]. intros href. apply IH.
Qed.

Section Scraping.

Variable P : event → bool.
Hypothesis browser : ∀ ev, is_browser_call ev = true → P ev = true.
Hypothesis sleepy : ∀ n, P (EvSleep n) = true.
Hypothesis talking : talk P.

Lemma adds_round_body k video_urls : adds P (round_body k video_urls).
Proof.
  unfold round_body, sleep.
  repeat first
    [ apply adds_call; by apply browser | by apply adds_log
    | apply adds_for_items; by apply browser | by apply adds_notify
    | apply adds_ret | apply adds_bind; [|intros ?] ].
Qed.

Lemma adds_while_rounds N fuel :
  ∀ k video_urls, adds P (while_rounds N fuel k video_urls).
Proof.
  induction fuel as [|fuel IH]; intros k video_urls; simpl;
    destruct (_ <? _).
  - intros st o st' [= <- <-]. split; [|done].
    exists []. by rewrite app_nil_r.
  - apply adds_ret.
  - apply adds_bind; [apply adds_round_body|].
    intros urls'. destruct (_ <=? _); [apply adds_ret|apply IH].
  - apply adds_ret.
Qed.

Lemma adds_scrape fuel url N : adds P (scrape fuel url N).
Proof.
  unfold scrape, sleep.
  apply adds_bind; [by apply adds_notify|intros _].
  apply adds_bind; [apply adds_call; by apply browser|intros _].
  apply adds_bind; [by apply adds_log|intros _].
  apply adds_while_rounds.
Qed.

Lemma adds_get_mix_videos fuel url N : adds P (get_mix_videos fuel url N).
Proof.
  unfold get_mix_videos.
  apply adds_bind; [apply adds_call; by apply browser|intros _].
  apply adds_bind; [|intros urls; apply adds_ret].
  apply adds_try_finally; [apply adds_scrape|].
  apply adds_call. by apply browser.
Qed.

End Scraping.

Lemma adds_report_progress P ds :
  (∀ percent total, adds P (notify (MsgDownloading percent total))) →
  adds P (report_progress ds).
Proof.
  intros Hdl. induction ds as [|d ds IH]; simpl; [apply adds_ret|].
  apply adds_bind; [|by intros _].
  unfold progress_hooks. destruct (progress_callback self); simpl;
    [|apply adds_ret].
  apply adds_bind; [|intros _; apply adds_ret].
  unfold progress_hook. destruct (String.eqb _ _); [apply Hdl|apply adds_ret].
Qed.

Lemma adds_ydl_extract_info_of P url :
  P (EvExtractInfo url) = true →
  (∀ percent total, adds P (notify (MsgDownloading percent total))) →
  adds P (ydl_extract_info url).
Proof.
  intros HP Hdl. unfold ydl_extract_info.
  apply adds_bind; [by apply adds_log|intros _].
  apply adds_bind; [|intros result; apply adds_reply].
  apply adds_try_except; [|intros e; apply adds_ret].
  apply adds_bind; [by apply adds_report_progress|intros _; apply adds_ret].
Qed.

Lemma adds_ydl_extract_info P url :
  P (EvExtractInfo url) = true → talk P → adds P (ydl_extract_info url).
Proof.
  intros HP Htalk. apply adds_ydl_extract_info_of; [done|].
  intros percent total. by apply adds_notify.
Qed.

Section Downloading.

Variable P : event → bool.
Hypothesis download : ∀ ev, is_download_call ev = true → P ev = true.
Hypothesis sleepy : ∀ n, P (EvSleep n) = true.
Hypothesis talking : talk P.

Lemma adds_os_path_exists : adds P os_path_exists.
Proof.
  intros st o st' [= <- <-]. split; [|done].
  exists [EvPathExists]. split; [done|]. constructor; [|done].
  by apply download.
Qed.

Lemma adds_os_makedirs : adds P os_makedirs.
Proof.
  assert (P EvMakedirs = true) as HP by by apply download.
  intros st o st'. unfold os_makedirs.
  destruct (makedirs w (output_path self)); intros [= <- <-];
    (split; [|congruence]);
    exists [EvMakedirs]; (split; [done|by constructor]).
Qed.

Lemma adds_download_video url : adds P (download_video url).
Proof.
  unfold download_video. apply adds_try_except.
  - apply adds_bind; [apply adds_os_path_exists|intros there].
    apply adds_bind;
      [destruct there; [apply adds_ret|apply adds_os_makedirs]|intros _].
    apply adds_bind;
      [apply adds_ydl_extract_info; [by apply download|done]|].
    intros [i|]; [|apply adds_ret].
    apply adds_bind; [by apply adds_notify|intros _; apply adds_ret].
  - intros e. apply adds_bind; [by apply adds_notify|].
    intros _. apply adds_ret.
Qed.

Lemma adds_for_videos total :
  ∀ urls i c, adds P (for_videos total i urls c).
Proof.
  induction urls as [|url rest IH]; intros i c; simpl; [apply adds_ret|].
  apply adds_bind; [by apply adds_notify|intros _].
  apply adds_bind; [apply adds_download_video|intros ok].
  apply adds_bind; [by apply adds_log|intros _]. apply IH.
Qed.

End Downloading.

Lemma adds_download_mix P fuel url N :
  (∀ ev, is_browser_call ev = true → P ev = true) →
  (∀ ev, is_download_call ev = true → P ev = true) →
  (∀ n, P (EvSleep n) = true) → talk P →
  adds P (download_mix fuel url N).
Proof.
  intros Hb Hd Hs Ht. unfold download_mix.
  apply adds_bind; [by apply adds_notify|intros _].
  apply adds_bind; [by apply adds_get_mix_videos|intros urls].
  apply adds_bind; [by apply adds_for_videos|intros n].
  apply adds_bind; [by apply adds_notify|intros _]. apply adds_ret.
Qed.

Lemma messages_app st st' evs :
  trace st' = trace st ++ evs →
  Forall (λ ev, negb (is_progress ev) = true) evs →
  messages st' = messages st.
Proof.
  intros Htr Hall. unfold messages. rewrite Htr, omap_app.
  rewrite <- (app_nil_r (omap _ (trace st))) at 2. f_equal. clear Htr.
  induction Hall as [|ev evs Hev _ IH]; [done|].
  simpl. by destruct ev.
Qed.

Lemma extract_calls_app st st' evs :
  trace st' = trace st ++ evs →
  Forall (λ ev, negb (is_download_call ev) = true) evs →
  extract_calls st' = extract_calls st.
Proof.
  intros Htr Hall. unfold extract_calls. rewrite Htr, omap_app.
  rewrite <- (app_nil_r (omap _ (trace st))) at 2. f_equal. clear Htr.
  induction Hall as [|ev evs Hev _ IH]; [done|].
  simpl. by destruct ev.
Qed.

Lemma count_events_app p st st' evs :
  trace st' = trace st ++ evs →
  Forall (λ ev, negb (p ev) = true) evs →
  count_events p st' = count_events p st.
Proof.
  intros Htr Hall. unfold count_events. rewrite Htr, filter_app, length_app.
  assert (length (filter (λ ev, p ev = true) evs) = 0%nat) as ->; [|lia].
  clear Htr. induction Hall as [|ev evs Hev _ IH]; [done|].
  rewrite filter_cons_False; [done|]. by destruct (p ev).
Qed.

(** X1: an object without a progress callback tells nobody anything:
    whatever [download_mix], [get_mix_videos] or [download_video] do, and
    however they end, no message is sent. *)
Theorem no_callback_no_messages fuel url N st :
  progress_callback self = None →
  messages (download_mix fuel url N st).2 = messages st ∧
  messages (get_mix_videos fuel url N st).2 = messages st ∧
  messages (download_video url st).2 = messages st.
Proof.
  intros Hnone.
  set (P := λ ev, negb (is_progress ev)).
  assert (talk P) as Ht by by left.
  assert (∀ ev, is_browser_call ev = true → P ev = true) as Hb
    by by intros [].
  assert (∀ ev, is_download_call ev = true → P ev = true) as Hd
    by by intros [].
  assert (∀ n, P (EvSleep n) = true) as Hs by done.
  split_and!.
  - destruct (download_mix fuel url N st) as [o st'] eqn:Hrun.
    apply (adds_download_mix P) in Hrun as ((evs & Htr & Hall) & _);
      [|done..]. by eapply messages_app.
  - destruct (get_mix_videos fuel url N st) as [o st'] eqn:Hrun.
    apply (adds_get_mix_videos P) in Hrun as ((evs & Htr & Hall) & _);
      [|done..]. by eapply messages_app.
  - destruct (download_video url st) as [o st'] eqn:Hrun.
    apply (adds_download_video P) in Hrun as ((evs & Htr & Hall) & _);
      [|done..]. by eapply messages_app.
Qed.

(** ** How get_mix_videos ends *)

Lemma scrape_event_kinds :
  (∀ ev, is_browser_call ev = true → negb (is_download_call ev) = true) ∧
  (∀ n, negb (is_download_call (EvSleep n)) = true) ∧
  talk (λ ev, negb (is_download_call ev)).
Proof. split_and!; [by intros []|done|by right]. Qed.

Lemma download_event_kinds :
  (∀ ev, is_download_call ev = true → negb (is_browser_call ev) = true) ∧
  (∀ n, negb (is_browser_call (EvSleep n)) = true) ∧
  talk (λ ev, negb (is_browser_call ev)).
Proof. split_and!; [by intros []|done|by right]. Qed.

Lemma get_mix_videos_returned fuel url N st l st' :
  get_mix_videos fuel url N st = (Return l, st') →
  ∃ urls st2 evs,
    setup_driver w = Returns tt ∧ driver_quit w = Returns tt ∧
    scrape fuel url N (emit EvSetupDriver st) = (Return urls, st2) ∧
    l = slice_to urls N ∧ st' = emit EvQuit st2 ∧
    trace st' = trace st ++ EvSetupDriver :: evs ++ [EvQuit] ∧
    Forall (λ ev, negb (is_download_call ev) = true) evs ∧
    dir_exists st' = dir_exists st.
Proof.
  destruct (setup_driver w) as [[]|e] eqn:Hsetup.
  - rewrite get_mix_videos_eq by done.
    destruct (scrape fuel url N (emit EvSetupDriver st))
      as [[urls|e|] st2] eqn:Hscrape; [| |done];
      destruct (driver_quit w) as [[]|e'] eqn:Hquit; [|done|done|done].
    intros [= <- <-].
    destruct scrape_event_kinds as (Hb & Hs & Ht).
    apply (adds_scrape _ Hb Hs Ht) in Hscrape as Hadds.
    destruct Hadds as ((evs & Htr & Hall) & Hdir).
    exists urls, st2, evs. split_and!; try done.
    + simpl. rewrite Htr. simpl. by rewrite <- !app_assoc.
    + simpl. by rewrite Hdir.
  - by rewrite (get_mix_videos_no_driver _ _ _ _ e).
Qed.

Lemma loop_at_below N st0 k urls st :
  loop_at N st0 k urls st →
  ∀ j, (j < k)%nat → Z.of_nat (length (collected j)) < N.
Proof.
  induction 1 as [|k urls st urls' st' Hat IH Hlt _]; intros j Hj; [lia|].
  destruct (decide (j = k)) as [->|Hne]; [|apply IH; lia].
  by rewrite <- (loop_at_collected _ _ _ _ _ Hat).
Qed.

Lemma scrape_returned fuel url N st urls st' :
  scrape fuel url N st = (Return urls, st') →
  ∃ st0 k, (k ≤ fuel)%nat ∧ loop_at N st0 k urls st' ∧
           N ≤ Z.of_nat (length urls).
Proof.
  unfold scrape.
  intros (_ & st1 & _ & H1)%bind_inv_Return.
  apply bind_inv_Return in H1 as (_ & st2 & _ & H2).
  apply bind_inv_Return in H2 as (_ & st3 & _ & H3).
  apply (while_rounds_inv N st3) in H3 as (k & Hk & Hat & Hle);
    [|constructor].
  exists st3, k. split_and!; [lia|done|done].
Qed.

(** X2: in a run of [download_mix] every browser call comes before
    every filesystem or download-service call, and when any call of the
    download phase is made the last thing the scrape phase did was
    [driver.quit()]: no download starts with the browser still open. *)
Theorem browser_is_closed_before_downloads fuel url N st :
  ∃ evs1 evs2,
    trace (download_mix fuel url N st).2 = trace st ++ evs1 ++ evs2 ∧
    Forall (λ ev, is_download_call ev = false) evs1 ∧
    Forall (λ ev, is_browser_call ev = false) evs2 ∧
    (evs2 ≠ [] → last evs1 = Some EvQuit).
Proof.
  destruct scrape_event_kinds as (Hb & Hs & Ht).
  destruct download_event_kinds as (Hd' & Hs' & Ht').
  assert (Hneg : ∀ (p : event → bool) evs,
             Forall (λ ev, negb (p ev) = true) evs →
             Forall (λ ev, p ev = false) evs).
  { intros p evs Hall. eapply Forall_impl; [exact Hall|].
    intros ev. simpl. destruct (p ev); simpl; congruence. }
  unfold download_mix. unfold bind at 1.
  destruct (notify MsgStarting st) as [o0 st0] eqn:H0.
  apply (adds_notify _ _ Ht) in H0 as Hadd0.
  destruct Hadd0 as ((evs0 & Htr0 & Hall0) & _).
  assert (Hstop : ∀ o : outcome Z,
             ∃ evs1 evs2, trace (o, st0).2 = trace st ++ evs1 ++ evs2 ∧
               Forall (λ ev, is_download_call ev = false) evs1 ∧
               Forall (λ ev, is_browser_call ev = false) evs2 ∧
               (evs2 ≠ [] → last evs1 = Some EvQuit)).
  { intros o. exists evs0, []. rewrite app_nil_r.
    split_and!; [done|by apply Hneg|done|done]. }
  destruct o0 as [[]|e|]; [|apply Hstop..].
  unfold bind at 1.
  destruct (get_mix_videos fuel url N st0) as [o1 st1] eqn:H1.
  assert (Hstop1 : ∀ o : outcome Z,
             ∃ evs1 evs2, trace (o, st1).2 = trace st ++ evs1 ++ evs2 ∧
               Forall (λ ev, is_download_call ev = false) evs1 ∧
               Forall (λ ev, is_browser_call ev = false) evs2 ∧
               (evs2 ≠ [] → last evs1 = Some EvQuit)).
  { intros o. apply (adds_get_mix_videos _ Hb Hs Ht) in H1 as Hadd1.
    destruct Hadd1 as ((evs1 & Htr1 & Hall1) & _).
    exists (evs0 ++ evs1), []. rewrite app_nil_r. simpl.
    rewrite Htr1, Htr0, app_assoc.
    split_and!; [done|apply Hneg; by apply Forall_app|done|done]. }
  destruct o1 as [urls|e|]; [|apply Hstop1..].
  apply get_mix_videos_returned in H1
    as (_ & _ & evs & _ & _ & _ & _ & _ & Htr1 & Hall1 & _).
  set (rest := bind (for_videos (length urls) 1 urls 0)
                 (λ n, bind (notify (MsgComplete n)) (λ _, ret n))).
  destruct (rest st1) as [o2 st2] eqn:H2.
  assert (adds (λ ev, negb (is_browser_call ev)) rest) as Hrest.
  { apply adds_bind; [by apply adds_for_videos|intros n].
    apply adds_bind; [by apply adds_notify|intros _; apply adds_ret]. }
  apply Hrest in H2 as ((evs2 & Htr2 & Hall2) & _).
  exists (evs0 ++ EvSetupDriver :: evs ++ [EvQuit]), evs2. simpl.
  rewrite Htr2, Htr1, Htr0. split_and!.
  - by rewrite <- !app_assoc.
  - apply Hneg, Forall_app. split; [done|].
    constructor; [done|]. apply Forall_app. split; [done|by constructor].
  - by apply Hneg.
  - intros _. rewrite app_comm_cons, app_assoc. apply last_snoc.
Qed.

(** X3: whenever [get_mix_videos] returns for a positive [num_videos],
    the list has exactly [num_videos] entries, no two of them equal, and
    is the beginning of what had been collected at the first round that
    reached [num_videos]: the loop went on for [k] rounds, one for each
    earlier count below the target. *)
Theorem get_mix_videos_result_shape fuel url N st l st' :
  0 < N →
  get_mix_videos fuel url N st = (Return l, st') →
  ∃ k, (1 ≤ k ≤ fuel)%nat ∧
       (∀ j, (j < k)%nat → Z.of_nat (length (collected j)) < N) ∧
       N ≤ Z.of_nat (length (collected k)) ∧
       l = take (Z.to_nat N) (collected k) ∧
       length l = Z.to_nat N ∧
       NoDup l.
Proof.
  intros Hpos (urls & st2 & evs & _ & _ & Hscrape & -> & _)
           %get_mix_videos_returned.
  apply scrape_returned in Hscrape as (st0 & k & Hk & Hat & Hle).
  pose proof (loop_at_collected _ _ _ _ _ Hat) as ->.
  exists k. split_and!.
  - destruct k; [|lia]. simpl in Hle. lia.
  - lia.
  - by eapply loop_at_below.
  - done.
  - by rewrite slice_to_positive by lia.
  - rewrite slice_to_positive, length_take_le by lia. done.
  - rewrite slice_to_positive by lia.
    eapply sublist_NoDup; [apply NoDup_first_seen|apply sublist_take].
Qed.

(** X4: when the scrape raises, [download_mix] raises the same
    exception and nothing has been downloaded: the download service and
    the filesystem were never called. *)
Theorem failed_scrape_downloads_nothing fuel url N st st0 e st1 :
  notify MsgStarting st = (Return tt, st0) →
  get_mix_videos fuel url N st0 = (Raise e, st1) →
  download_mix fuel url N st = (Raise e, st1) ∧
  extract_calls st1 = extract_calls st ∧
  count_events is_download_call st1 = count_events is_download_call st ∧
  dir_exists st1 = dir_exists st.
Proof.
  intros H0 H1. destruct scrape_event_kinds as (Hb & Hs & Ht).
  apply (adds_notify _ _ Ht) in H0 as Hadd0.
  apply (adds_get_mix_videos _ Hb Hs Ht) in H1 as Hadd1.
  destruct Hadd0 as ((evs0 & Htr0 & Hall0) & Hdir0).
  destruct Hadd1 as ((evs1 & Htr1 & Hall1) & Hdir1).
  assert (trace st1 = trace st ++ (evs0 ++ evs1)) as Htr
    by by rewrite Htr1, Htr0, app_assoc.
  assert (Forall (λ ev, negb (is_download_call ev) = true) (evs0 ++ evs1))
    as Hall by by apply Forall_app.
  split_and!.
  - unfold download_mix. erewrite bind_Return by exact H0.
    unfold bind. by rewrite H1.
  - by eapply extract_calls_app.
  - by eapply count_events_app.
  - by rewrite Hdir1, Hdir0.
Qed.

(** X5: when [driver.quit()] raises, [get_mix_videos] never returns a
    list: every run that ends raises the exception of [quit], also when
    the collection itself went through, and also in place of an exception
    of the scrape. *)
Theorem failing_quit_loses_the_list fuel url N st e' :
  setup_driver w = Returns tt →
  driver_quit w = Raises e' →
  (get_mix_videos fuel url N st).1 = Raise e' ∨
  (get_mix_videos fuel url N st).1 = OutOfFuel.
Proof.
  intros Hsetup Hquit. rewrite get_mix_videos_eq by done.
  destruct (scrape fuel url N (emit EvSetupDriver st)) as [[urls|e|] st2];
    rewrite ?Hquit; simpl; auto.
Qed.

(** X6: when [_setup_driver] raises there is no driver to close:
    [get_mix_videos] raises that exception having made no other call, and
    [download_mix] ends by raising without a [quit], a scroll or a
    download. *)
Theorem no_driver_nothing_to_close fuel url N st e :
  setup_driver w = Raises e →
  get_mix_videos fuel url N st = (Raise e, emit EvSetupDriver st) ∧
  (∃ e', (download_mix fuel url N st).1 = Raise e') ∧
  count_events is_quit (download_mix fuel url N st).2 =
    count_events is_quit st ∧
  count_events is_scroll (download_mix fuel url N st).2 =
    count_events is_scroll st ∧
  extract_calls (download_mix fuel url N st).2 = extract_calls st.
Proof.
  intros Hsetup.
  pose proof (get_mix_videos_no_driver fuel url N) as Hno.
  split; [by apply Hno|].
  destruct (notify MsgStarting st) as [[[]|e0|] st0] eqn:H0.
  - assert (download_mix fuel url N st = (Raise e, emit EvSetupDriver st0))
      as ->.
    { unfold download_mix. erewrite bind_Return by exact H0.
      unfold bind. by rewrite (Hno st0 e Hsetup). }
    simpl.
    apply (keeps_notify is_quit) in H0 as Hq; [|done].
    apply (keeps_notify is_scroll) in H0 as Hsc; [|done].
    destruct scrape_event_kinds as (_ & _ & Ht).
    apply (adds_notify _ _ Ht) in H0 as ((evs0 & Htr0 & Hall0) & _).
    rewrite !count_events_emit, extract_calls_emit, app_nil_r. simpl.
    split_and!; [by eexists|lia|lia|by eapply extract_calls_app].
  - assert (download_mix fuel url N st = (Raise e0, st0)) as ->.
    { unfold download_mix, bind. by rewrite H0. }
    simpl.
    apply (keeps_notify is_quit) in H0 as Hq; [|done].
    apply (keeps_notify is_scroll) in H0 as Hsc; [|done].
    destruct scrape_event_kinds as (_ & _ & Ht).
    apply (adds_notify _ _ Ht) in H0 as ((evs0 & Htr0 & Hall0) & _).
    split_and!; [by eexists|done|done|by eapply extract_calls_app].
  - by apply notify_ends in H0.
Qed.

(** ** The batch in terms of what the collaborators answer *)

Lemma dir_ready_told m st : dir_ready (told m st) = dir_ready st.
Proof. unfold dir_ready. by rewrite told_dir_exists. Qed.

Lemma count_events_told p m st :
  p (EvProgress m) = false → count_events p (told m st) = count_events p st.
Proof.
  intros Hp. unfold told. destruct (progress_callback self); [|done].
  rewrite count_events_emit, Hp. lia.
Qed.

(** X7: with a callback that does not raise, the loop of [download_mix]
    adds to the tally the number of URLs for which the download service
    returns metadata, handing every URL of the list to the service once
    and in order, provided the output directory is there or can be made;
    when it cannot, the tally comes back unchanged and the service is
    never called. *)
Theorem batch_result_closed_form total urls :
  sink_quiet →
  ∀ i c st, ∃ st',
    for_videos total i urls c st =
      (Return (c + if dir_ready st
                   then Z.of_nat
                          (length (filter (λ u, has_metadata u = true) urls))
                   else 0), st') ∧
    extract_calls st' =
      extract_calls st ++ (if dir_ready st then urls else []) ∧
    dir_ready st' = dir_ready st.
Proof.
  intros Hs. induction urls as [|url rest IH]; intros i c st.
  - exists st. simpl. split_and!; [|by destruct (dir_ready st);
                                      rewrite app_nil_r|done].
    unfold ret. do 2 f_equal. destruct (dir_ready st); simpl; lia.
  - destruct (download_video_quiet url (told (MsgProcessing i total) st) Hs)
      as (st2 & Hrun & Hready & Hcalls).
    rewrite dir_ready_told, told_extract_calls in *.
    destruct (IH (S i)
                (if dir_ready st && has_metadata url then c + 1 else c)
                (emit (EvSleep 1) st2)) as (st' & Hrest & Hcalls' & Hready').
    assert (dir_ready (emit (EvSleep 1) st2) = dir_ready st) as Hsame
      by done.
    rewrite Hsame, extract_calls_emit, app_nil_r, Hcalls in *.
    exists st'. split_and!.
    + simpl. erewrite bind_Return by by apply notify_quiet.
      erewrite bind_Return by exact Hrun.
      erewrite bind_Return by reflexivity.
      rewrite Hrest. do 2 f_equal.
      destruct (dir_ready st); simpl; [|lia].
      destruct (has_metadata url) eqn:Hmeta.
      * rewrite filter_cons_True by done. simpl length. lia.
      * rewrite filter_cons_False by congruence. lia.
    + rewrite Hcalls'. destruct (dir_ready st); by rewrite <- app_assoc.
    + done.
Qed.

(** ** The output directory *)

Lemma try_except_bind {A B} (m : M A) (k : A → M B) (h : exn → M B) st :
  try_except (bind m k) h st =
  match m st with
  | (Return a, st1) => try_except (k a) h st1
  | (Raise e, st1) => h e st1
  | (OutOfFuel, st1) => (OutOfFuel, st1)
  end.
Proof. unfold try_except, bind. by destruct (m st) as [[a|e|] st1]. Qed.

Lemma fs_event_kinds url :
  let P := λ ev, negb (is_makedirs ev) && negb (is_path_exists ev) in
  P (EvExtractInfo url) = true ∧ talk P ∧ P EvMakedirs = false.
Proof. split_and!; [done|by right|done]. Qed.

Lemma count_events_weaken (p q : event → bool) st st' evs :
  trace st' = trace st ++ evs →
  Forall (λ ev, q ev = true) evs →
  (∀ ev, q ev = true → p ev = false) →
  count_events p st' = count_events p st.
Proof.
  intros Htr Hall Hqp. eapply count_events_app; [done|].
  eapply Forall_impl; [exact Hall|]. intros ev Hq. simpl.
  by rewrite (Hqp ev Hq).
Qed.

Lemma count_events_state p tr d ev :
  count_events p (State (tr ++ [ev]) d) =
  (count_events p (State tr d) + if p ev then 1 else 0)%nat.
Proof. apply (count_events_emit p ev (State tr d)). Qed.

Lemma count_events_trace p st d :
  count_events p (State (trace st) d) = count_events p st.
Proof. done. Qed.

(** One call of [download_video], however it ends: one look at the
    directory, one [makedirs] exactly when it was not there. *)
Lemma download_video_fs url st o st' :
  download_video url st = (o, st') →
  count_events is_path_exists st' = S (count_events is_path_exists st) ∧
  count_events is_makedirs st' =
    (count_events is_makedirs st + if dir_exists st then 0 else 1)%nat ∧
  dir_exists st' = dir_ready st.
Proof.
  set (P := λ ev, negb (is_makedirs ev) && negb (is_path_exists ev)).
  destruct (fs_event_kinds url) as (Hx & Ht & Hmk).
  assert (HP1 : ∀ ev, P ev = true → is_path_exists ev = false)
    by by intros [].
  assert (HP2 : ∀ ev, P ev = true → is_makedirs ev = false)
    by by intros [].
  set (tail := bind (ydl_extract_info url)
                 (λ info, match info with
                          | Some i =>
                              _ <- notify (MsgSuccess
                                     (default "Unknown title" (title i))) ;;
                              ret true
                          | None => ret false
                          end)).
  set (handler := λ e, _ <- notify (MsgError (str e)) ;; ret false).
  assert (Hhandler : ∀ e, adds P (handler e)).
  { intros e. apply adds_bind; [by apply adds_notify|].
    intros _. apply adds_ret. }
  assert (Htail : adds P (try_except tail handler)).
  { apply adds_try_except; [|done].
    apply adds_bind; [by apply adds_ydl_extract_info|].
    intros [i|]; [|apply adds_ret].
    apply adds_bind; [by apply adds_notify|intros _; apply adds_ret]. }
  unfold download_video, dir_ready.
  rewrite try_except_bind. unfold os_path_exists.
  rewrite try_except_bind.
  destruct (dir_exists st) eqn:Hthere.
  - simpl. fold tail handler. intros Hrun.
    apply Htail in Hrun as ((evs & Htr & Hall) & Hdir).
    rewrite (count_events_weaken is_path_exists P _ _ _ Htr Hall HP1).
    rewrite (count_events_weaken is_makedirs P _ _ _ Htr Hall HP2).
    rewrite !count_events_emit, Hdir by done. simpl.
    split_and!; [lia|lia|done].
  - unfold os_makedirs.
    destruct (makedirs w (output_path self)) as [[]|e].
    + fold tail handler. intros Hrun.
      apply Htail in Hrun as ((evs & Htr & Hall) & Hdir).
      rewrite (count_events_weaken is_path_exists P _ _ _ Htr Hall HP1).
      rewrite (count_events_weaken is_makedirs P _ _ _ Htr Hall HP2).
      rewrite Hdir by done. simpl.
      rewrite !count_events_state, !count_events_trace. simpl.
      split_and!; [lia|lia|done].
    + fold handler. intros Hrun.
      apply Hhandler in Hrun as ((evs & Htr & Hall) & Hdir).
      rewrite (count_events_weaken is_path_exists P _ _ _ Htr Hall HP1).
      rewrite (count_events_weaken is_makedirs P _ _ _ Htr Hall HP2).
      rewrite !count_events_emit, Hdir by done. simpl.
      split_and!; [lia|lia|done].
Qed.

(** X8: in a batch with a callback that does not raise, every item
    looks once whether the output directory is there, and [os.makedirs]
    is called at most once when it succeeds, by the first item that misses
    the directory; after a batch that is not empty the directory is
    there. *)
Theorem directory_is_made_at_most_once total urls :
  sink_quiet →
  makedirs w (output_path self) = Returns tt →
  ∀ i c st o st',
    for_videos total i urls c st = (o, st') →
    count_events is_path_exists st' =
      (count_events is_path_exists st + length urls)%nat ∧
    count_events is_makedirs st' =
      (count_events is_makedirs st +
       if dir_exists st then 0 else 1 `min` length urls)%nat ∧
    (urls ≠ [] → dir_exists st' = true).
Proof.
  intros Hs Hmk. induction urls as [|url rest IH]; intros i c st o st'.
  - intros [= <- <-]. simpl. split_and!; [lia| |done].
    destruct (dir_exists st); lia.
  - simpl. erewrite bind_Return by by apply notify_quiet.
    destruct (download_video_quiet url (told (MsgProcessing i total) st) Hs)
      as (st2 & Hrun & _).
    apply download_video_fs in Hrun as Hfs.
    destruct Hfs as (Hpe & Hmd & Hdir).
    erewrite bind_Return by exact Hrun.
    erewrite bind_Return by reflexivity.
    intros Hrest.
    pose proof (IH _ _ _ _ _ Hrest) as (Hpe' & Hmd' & Hdir').
    rewrite !count_events_emit in *. simpl in *.
    rewrite !count_events_told in * by done.
    rewrite told_dir_exists in *.
    assert (dir_exists st2 = true) as Hnow.
    { rewrite Hdir. unfold dir_ready. rewrite told_dir_exists, Hmk.
      apply orb_true_r. }
    rewrite Hnow in *. split_and!; [lia| |].
    + destruct (dir_exists st); lia.
    + intros _. destruct rest as [|url' rest'].
      * by injection Hrest as _ <-.
      * by apply Hdir'.
Qed.

(** X9: when the output directory is missing and [os.makedirs]
    raises, a batch with a callback that does not raise tries to make the
    directory again for every item, never reaches the download service
    and returns the tally as it was. *)
Theorem failing_makedirs_is_retried total urls e :
  sink_quiet →
  makedirs w (output_path self) = Raises e →
  ∀ i c st, dir_exists st = false →
    ∃ st', for_videos total i urls c st = (Return c, st') ∧
           count_events is_makedirs st' =
             (count_events is_makedirs st + length urls)%nat ∧
           extract_calls st' = extract_calls st ∧
           dir_exists st' = false.
Proof.
  intros Hs Hmk. induction urls as [|url rest IH]; intros i c st Hmiss.
  - exists st. simpl. split_and!; [done|lia|done|done].
  - destruct (download_video_quiet url (told (MsgProcessing i total) st) Hs)
      as (st2 & Hrun & _ & Hcalls).
    apply download_video_fs in Hrun as Hfs.
    destruct Hfs as (_ & Hmd & Hdir).
    assert (dir_ready (told (MsgProcessing i total) st) = false) as Hnot.
    { unfold dir_ready. by rewrite told_dir_exists, Hmiss, Hmk. }
    rewrite Hnot in *. rewrite told_dir_exists, Hmiss in Hmd.
    rewrite count_events_told in Hmd by done.
    rewrite told_extract_calls, app_nil_r in Hcalls.
    destruct (IH (S i) c (emit (EvSleep 1) st2) Hdir)
      as (st' & Hrest & Hmd' & Hcalls' & Hdir').
    rewrite count_events_emit, extract_calls_emit, app_nil_r in *.
    simpl in *.
    exists st'. split_and!; [|lia|congruence|done].
    erewrite bind_Return by by apply notify_quiet.
    erewrite bind_Return by exact Hrun.
    erewrite bind_Return by reflexivity. done.
Qed.

(** ** The messages of the scroll loop *)

Lemma messages_emit ev st :
  messages (emit ev st) =
  messages st ++ match ev with EvProgress m => [m] | _ => [] end.
Proof.
  unfold messages, emit. simpl. rewrite omap_app. f_equal. by destruct ev.
Qed.

Lemma round_body_calls cb k urls st urls' st' :
  progress_callback self = Some cb →
  round_body k urls st = (Return urls', st') →
  messages st' = messages st ++ [MsgFound (length urls')] ∧
  count_events is_scroll st' = S (count_events is_scroll st) ∧
  count_events is_find_elements st' = S (count_events is_find_elements st).
Proof.
  intros Hcb. unfold round_body, sleep.
  intros (_ & st1 & [_ ->]%call_inv_Return & H1)%bind_inv_Return.
  apply bind_inv_Return in H1 as (u2 & st2 & Hsl & H2).
  unfold log in Hsl. injection Hsl as _ Hst2. subst st2.
  apply bind_inv_Return in H2 as (items & st3 & [_ ->]%call_inv_Return & H3).
  apply bind_inv_Return in H3 as (l & st4 & Hitems & H4).
  apply bind_inv_Return in H4 as (u & st5 & Hnote & [= Hurls Hst]).
  unfold notify in Hnote. rewrite Hcb in Hnote.
  apply call_inv_Return in Hnote as [_ Hst5]. subst urls' st' st5.
  set (P := λ ev, match ev with EvGetAttribute => true | _ => false end).
  apply (adds_for_items P) in Hitems as ((evs & Htr & Hall) & _); [|done].
  rewrite messages_emit.
  rewrite (messages_app _ st4 evs Htr), !messages_emit, !app_nil_r.
  2:{ eapply Forall_impl; [exact Hall|]. by intros []. }
  rewrite !count_events_emit.
  rewrite (count_events_weaken is_scroll P _ _ _ Htr Hall),
          (count_events_weaken is_find_elements P _ _ _ Htr Hall);
    [|by intros []..].
  rewrite !count_events_emit. simpl. split_and!; [done|lia|lia].
Qed.

(** X10: with a callback installed, a run of the scroll loop that has
    done [k] rounds has scrolled [k] times, queried the page [k] times
    and sent [k] messages, the [j]-th of which reports the number of
    distinct addresses collected in the first [j] rounds; the numbers
    reported never go down. *)
Theorem one_found_message_per_round cb N st0 k urls st :
  progress_callback self = Some cb →
  loop_at N st0 k urls st →
  messages st =
    messages st0 ++ map (λ j, MsgFound (length (collected j))) (seq 1 k) ∧
  count_events is_scroll st = (count_events is_scroll st0 + k)%nat ∧
  count_events is_find_elements st =
    (count_events is_find_elements st0 + k)%nat ∧
  (∀ i j, (i ≤ j)%nat →
          (length (collected i) ≤ length (collected j))%nat).
Proof.
  intros Hcb Hat. split_and!.
  - induction Hat as [|k urls st urls' st' Hat IH Hlt Hbody].
    + by rewrite app_nil_r.
    + pose proof (loop_round _ _ _ _ _ _ _ Hat Hlt Hbody) as Hat'.
      apply loop_at_collected in Hat'.
      apply (round_body_calls cb) in Hbody as (-> & _); [|done].
      rewrite IH, seq_S, map_app, app_assoc. simpl. by rewrite Hat'.
  - induction Hat as [|k urls st urls' st' _ IH _ Hbody]; [lia|].
    apply (round_body_calls cb) in Hbody as (_ & -> & _); [|done]. lia.
  - induction Hat as [|k urls st urls' st' _ IH _ Hbody]; [lia|].
    apply (round_body_calls cb) in Hbody as (_ & _ & ->); [|done]. lia.
  - intros i j Hij. apply prefix_length. by apply collected_prefix.
Qed.

Lemma fold_append_new_known (s l : list string) :
  (∀ c, c ∈ s → c ∈ l) → fold_left append_new s l = l.
Proof.
  induction s as [|c s IH]; intros Hin; simpl; [done|].
  unfold append_new at 2.
  rewrite bool_decide_eq_true_2 by (apply Hin; left).
  apply IH. intros c' Hc'. apply Hin. by right.
Qed.

(** X11: a round in which every anchor leads to an address that is
    already in the list leaves [video_urls] as it was, so that below the
    target the loop goes into another round with the same list. *)
Theorem stale_round_changes_nothing k video_urls st urls' st' :
  NoDup video_urls →
  (∀ c, c ∈ normalized (round_hrefs k) → c ∈ video_urls) →
  round_body k video_urls st = (Return urls', st') →
  urls' = video_urls.
Proof.
  intros Hnd Hknown ->%round_body_inv. unfold round_value.
  rewrite dict_keys_fromkeys, fold_add_href, fold_append_new_known by done.
  by apply first_seen_NoDup.
Qed.

(** ** The callback and download_video *)


(** X13: [download_video] can raise in one way only: the callback has
    raised on the error message for an exception caught before, and it is
    the exception of the callback that comes out. *)
Theorem download_video_raises_only_callback_errors url st e st' :
  download_video url st = (Raise e, st') →
  ∃ cb e0, progress_callback self = Some cb ∧
           cb (render (MsgError (str e0))) = Raises e ∧
           last (trace st') = Some (EvProgress (MsgError (str e0))).
Proof.
  unfold download_video, try_except.
  match goal with |- context [let (_, _) := ?body st in _] =>
    destruct (body st) as [[b|e0|] st1] end; [done| |done].
  unfold bind, notify.
  destruct (progress_callback self) as [cb|]; [|done].
  rewrite call_eq.
  destruct (cb (render (MsgError (str e0)))) as [[]|e1] eqn:Hcb; [done|].
  intros [= <- <-]. exists cb, e0. split_and!; [done|done|apply last_snoc].
Qed.

(** ** Which anchors count *)

Lemma append_cons (c : Ascii.ascii) (s t : string) :
  String c s +:+ t = String c (s +:+ t).
Proof. reflexivity. Qed.

Lemma append_nil (t : string) : "" +:+ t = t.
Proof. reflexivity. Qed.

Lemma prefix_spec (n h : string) :
  String.prefix n h = true ↔ ∃ post, h = n +:+ post.
Proof.
  revert h. induction n as [|a n IH]; intros h.
  - destruct h; split; try done; intros _; eexists; by rewrite append_nil.
  - destruct h as [|b h]; simpl.
    + split; [done|]. intros [post Hpost]. by rewrite append_cons in Hpost.
    + destruct (Ascii.ascii_dec a b) as [->|Hne].
      * rewrite IH. split; intros [post Hpost]; exists post;
          rewrite append_cons in *; congruence.
      * split; [done|]. intros [post Hpost].
        rewrite append_cons in Hpost. congruence.
Qed.

Lemma str_contains_spec (n h : string) :
  str_contains n h = true ↔ ∃ pre post, h = pre +:+ n +:+ post.
Proof.
  induction h as [|c h IH].
  - change (str_contains n "") with (String.prefix n "" || false).
    rewrite orb_false_r, prefix_spec. split.
    + intros [post ->]. exists "", post. by rewrite append_nil.
    + intros ([|c pre] & post & Heq).
      * exists post. by rewrite append_nil in Heq.
      * by rewrite append_cons in Heq.
  - change (str_contains n (String c h))
      with (String.prefix n (String c h) || str_contains n h).
    rewrite orb_true_iff, prefix_spec, IH. split.
    + intros [[post Hpost]|(pre & post & ->)].
      * exists "", post. by rewrite append_nil.
      * exists (String c pre), post. by rewrite append_cons.
    + intros ([|c' pre] & post & Heq).
      * left. exists post. by rewrite append_nil in Heq.
      * right. rewrite append_cons in Heq. injection Heq as -> ->.
        by exists pre, post.
Qed.

(** X14: an anchor adds to the list only if its [href] contains
    [watch?v=]: the test of line 70 holds exactly for the strings with
    that substring (which are never empty, so that the truthiness test
    adds nothing), and an anchor without such an [href], or without
    [href] at all, leaves [video_urls] as it was. *)
Theorem only_watch_hrefs_count (h : string) (video_urls : list string) :
  (is_watch_href h = true ↔ ∃ pre post, h = pre +:+ "watch?v=" +:+ post) ∧
  (is_watch_href h = str_contains "watch?v=" h) ∧
  (is_watch_href h = false → add_href video_urls (Some h) = video_urls) ∧
  add_href video_urls None = video_urls.
Proof.
  assert (is_watch_href h = str_contains "watch?v=" h) as Hsame.
  { unfold is_watch_href. destruct h as [|c h]; [done|].
    by rewrite (proj2 (String.eqb_neq _ _)). }
  split_and!.
  - by rewrite Hsame, str_contains_spec.
  - done.
  - intros Hno. unfold add_href. by rewrite Hno.
  - done.
Qed.

(** ** The messages of download_mix *)

Lemma messages_grow {A} (m : M A) st o st' :
  adds (λ _, true) m → m st = (o, st') →
  ∃ ms, messages st' = messages st ++ ms.
Proof.
  intros Hm Hrun. apply Hm in Hrun as ((evs & Htr & _) & _).
  unfold messages. rewrite Htr, omap_app. eauto.
Qed.

(** X15: when [download_mix] returns [n] with a callback installed,
    the first message of the run was the opening one and the last is the
    summary, which names that same [n]. *)
Theorem download_mix_announces_its_result cb fuel url N st n st' :
  progress_callback self = Some cb →
  download_mix fuel url N st = (Return n, st') →
  (∃ ms, messages st' =
         messages st ++ MsgStarting :: ms ++ [MsgComplete n]) ∧
  last (messages st') = Some (MsgComplete n).
Proof.
  intros Hcb. unfold download_mix.
  intros (u0 & st0 & H0 & H1)%bind_inv_Return.
  apply bind_inv_Return in H1 as (urls & st1 & Hget & H2).
  apply bind_inv_Return in H2 as (n' & st2 & Hfor & H3).
  apply bind_inv_Return in H3 as (u3 & st3 & Hend & [= Hn Hst]).
  subst n' st'.
  unfold notify in H0, Hend. rewrite Hcb in H0, Hend.
  apply call_inv_Return in H0 as [_ ->].
  apply call_inv_Return in Hend as [_ ->].
  assert (Hall : ∀ ev : event, (λ _ : event, true) ev = true) by done.
  apply (messages_grow _ _ _ _
           (adds_get_mix_videos _ (λ ev _, Hall ev) (λ n, Hall _)
              (or_intror (λ m, Hall _)) fuel url N)) in Hget as [ms1 Hms1].
  apply (messages_grow _ _ _ _
           (adds_for_videos _ (λ ev _, Hall ev) (λ n, Hall _)
              (or_intror (λ m, Hall _)) _ _ _ _)) in Hfor as [ms2 Hms2].
  rewrite messages_emit, Hms2, Hms1, messages_emit.
  split.
  - exists (ms1 ++ ms2). by rewrite <- !app_assoc.
  - apply last_snoc.
Qed.

Lemma markers_emit ev st :
  markers (emit ev st) =
  markers st ++ match ev with
                | EvProgress (MsgProcessing i n) => [(i, n)]
                | _ => []
                end.
Proof.
  unfold markers, emit. simpl. rewrite omap_app. f_equal.
  destruct ev as [[]| | | | | | | | | |]; done.
Qed.

Lemma download_video_markers url st o st' :
  download_video url st = (o, st') → markers st' = markers st.
Proof.
  intros Hrun.
  pose (P := λ ev : event, negb (is_start_marker ev)).
  assert (adds P (download_video url)) as Hadds.
  { unfold download_video. apply adds_try_except.
    - apply adds_bind;
        [intros s o1 s1 [= <- <-]; split; [|done];
         exists [EvPathExists]; split; [done|by repeat constructor]|].
      intros there. apply adds_bind.
      { destruct there; [apply adds_ret|].
        intros s o1 s1. unfold os_makedirs.
        destruct (makedirs w (output_path self)); intros [= <- <-];
          (split; [|done]); exists [EvMakedirs];
          (split; [done|by repeat constructor]). }
      intros _. apply adds_bind.
      { apply adds_ydl_extract_info_of; [done|]. intros percent total.
        unfold notify. destruct (progress_callback self);
          [by apply adds_call|apply adds_ret]. }
      intros [i|]; [|apply adds_ret].
      apply adds_bind; [|intros _; apply adds_ret].
      unfold notify. destruct (progress_callback self);
        [by apply adds_call|apply adds_ret].
    - intros e. apply adds_bind; [|intros _; apply adds_ret].
      unfold notify. destruct (progress_callback self);
        [by apply adds_call|apply adds_ret]. }
  subst P. destruct (Hadds _ _ _ Hrun) as ((evs & Htr & Hall) & _).
  unfold markers. rewrite Htr, omap_app.
  rewrite <- (app_nil_r (omap _ (trace st))) at 2. f_equal. clear Htr.
  induction Hall as [|ev evs Hev _ IH]; [done|].
  simpl. destruct ev as [[]| | | | | | | | | |]; done.
Qed.

(** X16: with a callback installed, a batch that returns has announced
    its items in order, numbered from the starting index on, each with
    the same total: for [download_mix] the markers read 1 of k, 2 of k,
    up to k of k. *)
Theorem items_are_announced_in_order cb total urls :
  progress_callback self = Some cb →
  ∀ i c st n st',
    for_videos total i urls c st = (Return n, st') →
    markers st' =
      markers st ++ map (λ j, (j, total)) (seq i (length urls)).
Proof.
  intros Hcb. induction urls as [|url rest IH]; intros i c st n st'; simpl.
  - intros [= _ <-]. by rewrite app_nil_r.
  - intros (u1 & st1 & Hnote & H1)%bind_inv_Return.
    apply bind_inv_Return in H1 as (ok & st2 & Hdown & H2).
    apply bind_inv_Return in H2 as (u3 & st3 & Hsl & Hrest).
    unfold sleep, log in Hsl. injection Hsl as _ Hst3. subst st3.
    unfold notify in Hnote. rewrite Hcb in Hnote.
    apply call_inv_Return in Hnote as [_ ->].
    apply download_video_markers in Hdown.
    apply IH in Hrest. rewrite Hrest, markers_emit, app_nil_r, Hdown.
    rewrite markers_emit. by rewrite <- app_assoc.
Qed.

End Downloader.

(** C7, on the code: with a callback installed, an item for which the
    service returns no metadata gets its start marker and nothing
    else.  Of the three items of the sample batch the second has no
    metadata: three start markers go out, but only two completion or
    failure messages, and [download_video] on that item makes its three
    calls and tells the callback nothing. *)
Theorem missing_metadata_gets_no_message :
  download_video chatty_downloader sample_world
      "https://yt/watch?v=b" fresh =
    (Return false,
     State [EvPathExists; EvMakedirs;
            EvExtractInfo "https://yt/watch?v=b"] true) ∧
  (download_mix strip_params chatty_downloader sample_world 2 "mix" 3 fresh).1 =
    Return 1 ∧
  count_events is_start_marker
    (download_mix strip_params chatty_downloader sample_world 2 "mix" 3 fresh).2 = 3%nat ∧
  count_events is_verdict
    (download_mix strip_params chatty_downloader sample_world 2 "mix" 3 fresh).2 = 2%nat.
Proof. by vm_compute. Qed.


(** ** The theorems at work on the sample collaborators *)

Lemma chatty_is_quiet : sink_quiet chatty_downloader.
Proof. intros cb text [= <-]. reflexivity. Qed.

Lemma silent_is_quiet : sink_quiet silent_downloader.
Proof. intros cb text [=]. Qed.

Lemma sample_browser_is_quiet : browser_quiet sample_world.
Proof.
  intros round. split; [reflexivity|].
  exists (sample_page round). split; [reflexivity|].
  destruct round; repeat constructor; by eexists.
Qed.

Lemma sample_first_round N st0 :
  0 < N →
  loop_at strip_params chatty_downloader sample_world N st0 1
    [url_a; url_b]
    (State (trace st0 ++
            [EvScroll; EvSleep 2; EvFindElements; EvGetAttribute;
             EvGetAttribute; EvGetAttribute; EvGetAttribute;
             EvProgress (MsgFound 2)]) (dir_exists st0)).
Proof.
  intros HN. eapply loop_round; [apply loop_start|simpl; lia|].
  destruct st0 as [tr d]. unfold round_body, bind. simpl.
  unfold ret, emit. simpl. by rewrite <- !app_assoc.
Qed.

Lemma sample_second_round :
  loop_at strip_params chatty_downloader sample_world 3 page_loaded 2
    [url_a; url_b; url_c] after_round_2.
Proof.
  eapply loop_round;
    [apply (sample_first_round 3 page_loaded); lia|simpl; lia|].
  reflexivity.
Qed.

(** From the second round on the sample page shows nothing new. *)
Lemma sample_page_stalls (k : nat) :
  (2 ≤ k)%nat →
  collected strip_params sample_world k = collected strip_params sample_world 2.
Proof.
  induction 1 as [|k Hk IH]; [done|].
  rewrite <- round_value_collected, IH.
  destruct k as [|k]; [lia|]. reflexivity.
Qed.

Lemma collected_urls_invariant_witness :
  loop_at strip_params chatty_downloader sample_world 3 page_loaded 2
    [url_a; url_b; url_c] after_round_2 ∧
  NoDup [url_a; url_b; url_c] ∧
  [url_a; url_b] `prefix_of` [url_a; url_b; url_c].
Proof.
  split; [apply sample_second_round|].
  destruct (collected_urls_invariant strip_params chatty_downloader
              sample_world 3 page_loaded 2 [url_a; url_b; url_c]
              after_round_2 sample_second_round)
    as (Hnodup & _ & _ & Hgrow).
  split; [exact Hnodup|].
  apply (Hgrow 1%nat [url_a; url_b] after_round_1);
    [apply (sample_first_round 3 page_loaded); lia|lia].
Defined.

Lemma safety_net_dedup_is_identity_witness :
  NoDup (@nil string) ∧
  for_items strip_params (sample_page 0) [] fresh =
    (Return [url_a; url_b],
     State [EvGetAttribute; EvGetAttribute; EvGetAttribute; EvGetAttribute]
           false) ∧
  dict_keys (dict_fromkeys [url_a; url_b]) = [url_a; url_b].
Proof.
  split; [constructor|]. split; [reflexivity|].
  apply (safety_net_dedup_is_identity strip_params (sample_page 0) [] fresh
           [url_a; url_b]
           (State [EvGetAttribute; EvGetAttribute; EvGetAttribute;
                   EvGetAttribute] false));
    [constructor|reflexivity].
Defined.

Lemma scroll_loop_exit_witness :
  0 < 3 ∧ 0 < 4 ∧
  (∃ urls st, ∀ fuel, (2 ≤ fuel)%nat →
     while_rounds strip_params chatty_downloader sample_world 3 fuel 0 []
       page_loaded = (Return urls, st)) ∧
  (∀ fuel, ∃ st,
     while_rounds strip_params chatty_downloader sample_world 4 fuel 0 []
       page_loaded = (OutOfFuel, st)).
Proof.
  assert (H3 : 0 < 3) by lia. assert (H4 : 0 < 4) by lia.
  split; [exact H3|]. split; [exact H4|]. split.
  - destruct (scroll_loop_exit strip_params chatty_downloader sample_world
                3 page_loaded H3) as (_ & Hends & _).
    apply (Hends chatty_is_quiet sample_browser_is_quiet 2%nat).
    vm_compute. discriminate.
  - destruct (scroll_loop_exit strip_params chatty_downloader sample_world
                4 page_loaded H4) as (_ & _ & Hstalls).
    apply (Hstalls chatty_is_quiet sample_browser_is_quiet 2%nat).
    + vm_compute. reflexivity.
    + apply sample_page_stalls.
Defined.

Lemma get_mix_videos_returns_first_N_witness :
  0 < 1 ∧
  loop_at strip_params chatty_downloader sample_world 1 page_loaded 1
    [url_a; url_b] after_round_1 ∧
  get_mix_videos strip_params chatty_downloader sample_world 1 "mix" 1 fresh =
    (Return [url_a], emit EvQuit after_round_1) ∧
  length [url_a] = 1%nat.
Proof.
  assert (H1 : 0 < 1) by lia.
  pose proof (sample_first_round 1 page_loaded H1) as Hat.
  split; [exact H1|]. split; [exact Hat|].
  destruct (get_mix_videos_returns_first_N strip_params chatty_downloader
              sample_world "mix" 1 fresh
              (State [EvSetupDriver; EvProgress MsgLoading] false)
              1 [url_a; url_b] after_round_1
              H1 eq_refl eq_refl eq_refl Hat ltac:(simpl; lia) eq_refl
              1%nat (le_n 1)) as (Hrun & Hlen & _).
  split; [exact Hrun|exact Hlen].
Defined.

Lemma browser_closed_exactly_once_witness :
  setup_driver crashing_world = Returns tt ∧
  (get_mix_videos strip_params chatty_downloader crashing_world 5 "mix" 3
     fresh).1 = Raise (Exception "invalid session id") ∧
  count_events is_quit
    (get_mix_videos strip_params chatty_downloader crashing_world 5 "mix" 3
       fresh).2 = 1%nat ∧
  last (trace (get_mix_videos strip_params chatty_downloader crashing_world
                 5 "mix" 3 fresh).2) = Some EvQuit.
Proof.
  split; [reflexivity|]. split; [reflexivity|].
  apply (browser_closed_exactly_once strip_params chatty_downloader
           crashing_world 5 "mix" 3 fresh
           (Raise (Exception "invalid session id")));
    [reflexivity|reflexivity|discriminate].
Defined.

Lemma nonpositive_request_witness :
  -2 ≤ 0 ∧
  (get_mix_videos strip_params chatty_downloader sample_world 0 "mix" (-2)
     fresh).1 = Return [] ∧
  (download_mix strip_params chatty_downloader sample_world 0 "mix" (-2)
     fresh).1 = Return 0.
Proof.
  assert (Hneg : -2 ≤ 0) by lia. split; [exact Hneg|].
  destruct (nonpositive_request strip_params chatty_downloader sample_world
              0 "mix" (-2) fresh Hneg) as (_ & _ & _ & Hquiet).
  destruct (Hquiet chatty_is_quiet eq_refl eq_refl eq_refl)
    as (Hscrape & Hmix & _).
  split; [exact Hscrape|exact Hmix].
Defined.

Lemma download_video_total_witness :
  sink_quiet chatty_downloader ∧
  ∃ b st',
    download_video chatty_downloader sample_world url_c fresh =
      (Return b, st') ∧ b = false.
Proof.
  split; [apply chatty_is_quiet|].
  destruct (download_video_total chatty_downloader sample_world url_c fresh
              chatty_is_quiet) as (b & st' & Hrun & _ & Hraise & _).
  exists b, st'. split; [exact Hrun|].
  apply (Hraise (Exception "HTTP Error 403")). reflexivity.
Defined.

Lemma download_mix_counts_successes_witness :
  sink_quiet chatty_downloader ∧
  (get_mix_videos strip_params chatty_downloader sample_world 2 "mix" 3
     (told chatty_downloader MsgStarting fresh)).1 =
    Return [url_a; url_b; url_c] ∧
  ∃ bs, length bs = 3%nat ∧
    (download_mix strip_params chatty_downloader sample_world 2 "mix" 3
       fresh).1 = Return (count_true bs).
Proof.
  split; [apply chatty_is_quiet|]. split; [reflexivity|].
  destruct (download_mix_counts_successes strip_params chatty_downloader
              sample_world 2 "mix" 3 fresh [url_a; url_b; url_c]
              (get_mix_videos strip_params chatty_downloader sample_world 2
                 "mix" 3 (told chatty_downloader MsgStarting fresh)).2
              chatty_is_quiet eq_refl)
    as (bs & st2 & _ & Hlen & Hrun & _).
  exists bs. split; [exact Hlen|]. by rewrite Hrun.
Defined.

Lemma failure_does_not_stop_batch_witness :
  sink_quiet chatty_downloader ∧
  service_fails sample_world url_b ∧
  ∃ bs_pre bs_post st',
    for_videos chatty_downloader sample_world 3 1 [url_a; url_b; url_c] 0
      fresh = (Return (0 + count_true bs_pre + count_true bs_post), st') ∧
    length bs_post = 1%nat ∧
    extract_calls st' = [url_a; url_b; url_c].
Proof.
  assert (Hfail : service_fails sample_world url_b) by (right; reflexivity).
  split; [apply chatty_is_quiet|]. split; [exact Hfail|].
  destruct (failure_does_not_stop_batch chatty_downloader sample_world
              3 1 [url_a] url_b [url_c] 0 fresh chatty_is_quiet Hfail)
    as (bs_pre & st1 & st2 & bs_post & st' & _ & _ & _ & Hlen & _ & Hrun
        & Hcalls).
  exists bs_pre, bs_post, st'. split; [exact Hrun|]. split; [exact Hlen|].
  apply Hcalls. reflexivity.
Defined.

(** ** Sample runs *)

Example render_processing :
  render (MsgProcessing 3 25) = "[3/25] Processing video...".
Proof. reflexivity. Qed.

Example render_complete :
  render (MsgComplete 12) =
  "Download complete! Successfully downloaded 12 videos.".
Proof. reflexivity. Qed.

Example sample_scrape :
  get_mix_videos strip_params chatty_downloader sample_world 2 "mix" 3 fresh =
  (Return [url_a; url_b; url_c], emit EvQuit after_round_2).
Proof. reflexivity. Qed.

Example sample_messages :
  map render
    (messages (download_mix strip_params chatty_downloader sample_world
                 2 "mix" 3 fresh).2) =
  ["Starting YouTube Mix downloader..."; "Loading playlist page...";
   "Found 2 videos..."; "Found 3 videos...";
   "[1/3] Processing video..."; "Downloading: 50% of Unknown";
   "Successfully downloaded: Song A"; "[2/3] Processing video...";
   "[3/3] Processing video..."; "Error downloading video: HTTP Error 403";
   "Download complete! Successfully downloaded 1 videos."].
Proof. by vm_compute. Qed.

Example sample_out_of_fuel :
  (get_mix_videos strip_params chatty_downloader sample_world 7 "mix" 4
     fresh).1 = OutOfFuel.
Proof. by vm_compute. Qed.

Example sample_no_driver :
  get_mix_videos strip_params silent_downloader
    {| setup_driver := Raises (Exception "chromedriver not found");
       driver_get := λ _, Returns tt;
       execute_script := λ _, Returns tt;
       find_elements := λ _, Returns [];
       driver_quit := Returns tt;
       makedirs := λ _, Returns tt;
       extract_info := sample_service;
     hook_error := λ _ _, Returns None |} 3 "mix" 3 fresh =
  (Raise (Exception "chromedriver not found"), State [EvSetupDriver] false).
Proof. reflexivity. Qed.

Example slice_negative : slice_to [url_a; url_b; url_c] (-1) = [url_a; url_b].
Proof. reflexivity. Qed.

(** ** Further sample runs *)

Lemma no_callback_no_messages_witness :
  progress_callback silent_downloader = None ∧
  messages (download_mix strip_params silent_downloader sample_world
              2 "mix" 3 fresh).2 = [].
Proof.
  split; [reflexivity|].
  apply (no_callback_no_messages strip_params silent_downloader sample_world
           2 "mix" 3 fresh eq_refl).
Defined.

Lemma get_mix_videos_result_shape_witness :
  0 < 1 ∧
  get_mix_videos strip_params chatty_downloader sample_world 1 "mix" 1 fresh =
    (Return [url_a], emit EvQuit after_round_1) ∧
  ∃ k, (1 ≤ k ≤ 1)%nat ∧ length [url_a] = 1%nat ∧ NoDup [url_a].
Proof.
  assert (H1 : 0 < 1) by lia. split; [exact H1|]. split; [reflexivity|].
  destruct (get_mix_videos_result_shape strip_params chatty_downloader
              sample_world 1 "mix" 1 fresh [url_a]
              (emit EvQuit after_round_1) H1 eq_refl)
    as (k & Hk & _ & _ & _ & Hlen & Hnd).
  exists k. split; [exact Hk|]. split; [exact Hlen|exact Hnd].
Defined.

Lemma failed_scrape_downloads_nothing_witness :
  notify chatty_downloader MsgStarting fresh =
    (Return tt, State [EvProgress MsgStarting] false) ∧
  (get_mix_videos strip_params chatty_downloader crashing_world 5 "mix" 3
     (State [EvProgress MsgStarting] false)).1 =
    Raise (Exception "invalid session id") ∧
  (download_mix strip_params chatty_downloader crashing_world 5 "mix" 3
     fresh).1 = Raise (Exception "invalid session id") ∧
  extract_calls (download_mix strip_params chatty_downloader crashing_world
                   5 "mix" 3 fresh).2 = [].
Proof.
  split; [reflexivity|]. split; [reflexivity|].
  destruct (failed_scrape_downloads_nothing strip_params chatty_downloader
              crashing_world 5 "mix" 3 fresh
              (State [EvProgress MsgStarting] false)
              (Exception "invalid session id")
              (get_mix_videos strip_params chatty_downloader crashing_world
                 5 "mix" 3 (State [EvProgress MsgStarting] false)).2
              eq_refl eq_refl) as (Hrun & Hcalls & _).
  rewrite Hrun. split; [reflexivity|exact Hcalls].
Defined.

Lemma failing_quit_loses_the_list_witness :
  setup_driver stuck_world = Returns tt ∧
  driver_quit stuck_world = Raises (Exception "chrome not reachable") ∧
  (scrape strip_params chatty_downloader stuck_world 2 "mix" 3
     (emit EvSetupDriver fresh)).1 = Return [url_a; url_b; url_c] ∧
  ((get_mix_videos strip_params chatty_downloader stuck_world 2 "mix" 3
      fresh).1 = Raise (Exception "chrome not reachable") ∨
   (get_mix_videos strip_params chatty_downloader stuck_world 2 "mix" 3
      fresh).1 = OutOfFuel).
Proof.
  split; [reflexivity|]. split; [reflexivity|]. split; [reflexivity|].
  apply (failing_quit_loses_the_list strip_params chatty_downloader
           stuck_world 2 "mix" 3 fresh (Exception "chrome not reachable")
           eq_refl eq_refl).
Defined.

Lemma no_driver_nothing_to_close_witness :
  setup_driver driverless_world =
    Raises (Exception "chromedriver not found") ∧
  get_mix_videos strip_params chatty_downloader driverless_world 2 "mix" 3
    fresh =
    (Raise (Exception "chromedriver not found"), emit EvSetupDriver fresh) ∧
  count_events is_quit
    (download_mix strip_params chatty_downloader driverless_world 2 "mix" 3
       fresh).2 = 0%nat.
Proof.
  split; [reflexivity|].
  destruct (no_driver_nothing_to_close strip_params chatty_downloader
              driverless_world 2 "mix" 3 fresh
              (Exception "chromedriver not found") eq_refl)
    as (Hget & _ & Hquit & _).
  split; [exact Hget|exact Hquit].
Defined.

Lemma batch_result_closed_form_witness :
  sink_quiet chatty_downloader ∧
  ∃ st', for_videos chatty_downloader sample_world 3 1
           [url_a; url_b; url_c] 0 fresh = (Return 1, st') ∧
         extract_calls st' = [url_a; url_b; url_c].
Proof.
  split; [apply chatty_is_quiet|].
  destruct (batch_result_closed_form chatty_downloader sample_world 3
              [url_a; url_b; url_c] chatty_is_quiet 1%nat 0 fresh)
    as (st' & Hrun & Hcalls & _).
  exists st'. split; [exact Hrun|exact Hcalls].
Defined.

Lemma directory_is_made_at_most_once_witness :
  sink_quiet chatty_downloader ∧
  makedirs sample_world (output_path chatty_downloader) = Returns tt ∧
  count_events is_path_exists
    (for_videos chatty_downloader sample_world 3 1 [url_a; url_b; url_c] 0
       fresh).2 = 3%nat ∧
  count_events is_makedirs
    (for_videos chatty_downloader sample_world 3 1 [url_a; url_b; url_c] 0
       fresh).2 = 1%nat.
Proof.
  split; [apply chatty_is_quiet|]. split; [reflexivity|].
  destruct (directory_is_made_at_most_once chatty_downloader sample_world 3
              [url_a; url_b; url_c] chatty_is_quiet eq_refl 1%nat 0 fresh
              _ _ (surjective_pairing _)) as (Hlook & Hmake & _).
  split; [exact Hlook|exact Hmake].
Defined.

Lemma failing_makedirs_is_retried_witness :
  sink_quiet chatty_downloader ∧
  makedirs readonly_world (output_path chatty_downloader) =
    Raises (Exception "Permission denied") ∧
  dir_exists fresh = false ∧
  ∃ st', for_videos chatty_downloader readonly_world 3 1
           [url_a; url_b; url_c] 0 fresh = (Return 0, st') ∧
         count_events is_makedirs st' = 3%nat ∧
         extract_calls st' = [].
Proof.
  split; [apply chatty_is_quiet|]. split; [reflexivity|].
  split; [reflexivity|].
  destruct (failing_makedirs_is_retried chatty_downloader readonly_world 3
              [url_a; url_b; url_c] (Exception "Permission denied")
              chatty_is_quiet eq_refl 1%nat 0 fresh eq_refl)
    as (st' & Hrun & Hmake & Hcalls & _).
  exists st'. split; [exact Hrun|]. split; [exact Hmake|exact Hcalls].
Defined.

Lemma one_found_message_per_round_witness :
  progress_callback chatty_downloader = Some (λ _, Returns tt) ∧
  loop_at strip_params chatty_downloader sample_world 3 page_loaded 2
    [url_a; url_b; url_c] after_round_2 ∧
  messages after_round_2 = [MsgLoading; MsgFound 2; MsgFound 3] ∧
  count_events is_scroll after_round_2 = 2%nat.
Proof.
  split; [reflexivity|]. split; [apply sample_second_round|].
  destruct (one_found_message_per_round strip_params chatty_downloader
              sample_world (λ _, Returns tt) 3 page_loaded 2
              [url_a; url_b; url_c] after_round_2 eq_refl
              sample_second_round) as (Hmsgs & Hscroll & _).
  split; [exact Hmsgs|exact Hscroll].
Defined.

Lemma stale_round_changes_nothing_witness :
  NoDup [url_a; url_b; url_c] ∧
  round_body strip_params chatty_downloader sample_world 2
    [url_a; url_b; url_c] after_round_2 =
    (Return [url_a; url_b; url_c],
     State (trace after_round_2 ++
            [EvScroll; EvSleep 2; EvFindElements; EvGetAttribute;
             EvGetAttribute; EvGetAttribute; EvProgress (MsgFound 3)])
           false) ∧
  ∀ urls' st',
    round_body strip_params chatty_downloader sample_world 2
      [url_a; url_b; url_c] after_round_2 = (Return urls', st') →
    urls' = [url_a; url_b; url_c].
Proof.
  assert (Hnd : NoDup [url_a; url_b; url_c]).
  { apply (NoDup_first_seen strip_params [url_a; url_b; url_c]). }
  split; [exact Hnd|]. split; [reflexivity|].
  intros urls' st' Hrun.
  apply (stale_round_changes_nothing strip_params chatty_downloader
           sample_world 2 [url_a; url_b; url_c] after_round_2 urls' st' Hnd);
    [|exact Hrun].
  intros c Hc. vm_compute in Hc. exact Hc.
Defined.


Lemma download_video_raises_only_callback_errors_witness :
  download_video grumpy_downloader sample_world url_c fresh =
    (Raise (Exception "broken pipe"),
     State [EvPathExists; EvMakedirs; EvExtractInfo url_c;
            EvProgress (MsgError "HTTP Error 403")] true) ∧
  ∃ cb e0, progress_callback grumpy_downloader = Some cb ∧
           cb (render (MsgError (str e0))) =
             Raises (Exception "broken pipe").
Proof.
  split; [reflexivity|].
  destruct (download_video_raises_only_callback_errors grumpy_downloader
              sample_world url_c fresh (Exception "broken pipe")
              (State [EvPathExists; EvMakedirs; EvExtractInfo url_c;
                      EvProgress (MsgError "HTTP Error 403")] true)
              eq_refl) as (cb & e0 & Hcb & Hraise & _).
  exists cb, e0. split; [exact Hcb|exact Hraise].
Defined.

Lemma download_mix_announces_its_result_witness :
  progress_callback chatty_downloader = Some (λ _, Returns tt) ∧
  (download_mix strip_params chatty_downloader sample_world 2 "mix" 3
     fresh).1 = Return 1 ∧
  last (messages (download_mix strip_params chatty_downloader sample_world
                    2 "mix" 3 fresh).2) = Some (MsgComplete 1).
Proof.
  split; [reflexivity|]. split; [reflexivity|].
  apply (download_mix_announces_its_result strip_params chatty_downloader
           sample_world (λ _, Returns tt) 2 "mix" 3 fresh 1 _ eq_refl
           (surjective_pairing _)).
Defined.

Lemma items_are_announced_in_order_witness :
  progress_callback chatty_downloader = Some (λ _, Returns tt) ∧
  (for_videos chatty_downloader sample_world 3 1 [url_a; url_b; url_c] 0
     fresh).1 = Return 1 ∧
  markers (for_videos chatty_downloader sample_world 3 1
             [url_a; url_b; url_c] 0 fresh).2 =
    [(1%nat, 3%nat); (2%nat, 3%nat); (3%nat, 3%nat)].
Proof.
  split; [reflexivity|]. split; [reflexivity|].
  apply (items_are_announced_in_order chatty_downloader sample_world
           (λ _, Returns tt) 3 [url_a; url_b; url_c] eq_refl 1%nat 0 fresh 1
           _ (surjective_pairing _)).
Defined.

(** C4, as stated, does not hold: with a callback that raises on the
    error report, the exception of the service on the first of two items
    is caught and reported, the callback raises inside the handler, and
    the exception leaves [download_video] and the loop: the second item,
    for which the service has metadata, is never handed to the service,
    and [download_mix] raises instead of returning a tally. *)
Lemma failure_with_raising_callback_stops_batch :
  service_fails sample_world url_c ∧
  has_metadata sample_world url_a = true ∧
  for_videos touchy_downloader sample_world 2 1 [url_c; url_a] 0 fresh =
    (Raise (Exception "log window closed"),
     State [EvProgress (MsgProcessing 1 2); EvPathExists; EvMakedirs;
            EvExtractInfo url_c; EvProgress (MsgError "HTTP Error 403")]
           true) ∧
  (get_mix_videos strip_params touchy_downloader rejected_first_world
     1 "mix" 2 fresh).1 = Return [url_c; url_a] ∧
  (download_mix strip_params touchy_downloader rejected_first_world
     1 "mix" 2 fresh).1 = Raise (Exception "log window closed") ∧
  extract_calls (download_mix strip_params touchy_downloader
                   rejected_first_world 1 "mix" 2 fresh).2 = [url_c].
Proof.
  split; [left; by eexists|]. split; [reflexivity|].
  split; [reflexivity|]. split; [reflexivity|].
  split; by vm_compute.
Qed.
